(** * Algoroom backend: session service and websocket connection manager

    A shallow embedding of [backend/app/models.py],
    [backend/app/services/session_service.py], [backend/app/websocket.py],
    [backend/app/routers/sessions.py] and the websocket endpoint of
    [backend/app/main.py].

    Conventions.
    - Python [int] is [Z]; [str] is [string]; [datetime] is a [Z] clock
      reading; [X | None] is [option X].
    - A [WebSocket] object is its identity (Starlette compares connections
      with [object.__eq__]), a [nat].
    - A Python [dict] is a [gmap]; a [list] keeps order and duplicates.
    - An operation that can raise returns an [option]: [None] is an escaped
      exception. Exceptions the source catches are handled where it catches
      them.
    - The application serves one thing at a time: an [Event] is a route, one
      side of the websocket endpoint or a background task run to its end.
      What the awaits inside [broadcast] let other handlers do to a call
      is in [resume] and [apply_step]. *)

From Stdlib Require Import ZArith.
From stdpp Require Import gmap strings list fin_maps stringmap.

Local Open Scope Z_scope.

(** ** models.py *)

Inductive Language := javascript | python.

Inductive UpdateType :=
| code_update
| participant_joined
| participant_left
| execution_result.

#[global] Instance Language_eq_dec : EqDecision Language.
Proof. solve_decision. Defined.

#[global] Instance UpdateType_eq_dec : EqDecision UpdateType.
Proof. solve_decision. Defined.

Module Session.
Record t := mk {
  id : string;
  code : string;
  language : Language;
  createdAt : Z;
  participants : Z
}.
End Session.

Module UpdateCodeRequest.
Record t := mk {
  code : string;
  language : option Language
}.
End UpdateCodeRequest.

Module ExecutionResult.
Record t := mk {
  success : bool;
  output : string;
  error : option string;
  executionTime : Z
}.
End ExecutionResult.

Module SessionUpdate.
Record t := mk {
  type : UpdateType;
  sessionId : string;
  code : option string;
  language : option Language;
  participants : option Z;
  executionResult : option ExecutionResult.t;
  timestamp : Z
}.
End SessionUpdate.

(** One entry of the [update=] dictionary handed to [model_copy]. *)
Inductive FieldUpdate :=
| set_code (c : string)
| set_language (l : Language).

Definition apply_update (s : Session.t) (u : FieldUpdate) : Session.t :=
  match u with
  | set_code c =>
      Session.mk (Session.id s) c (Session.language s)
                 (Session.createdAt s) (Session.participants s)
  | set_language l =>
      Session.mk (Session.id s) (Session.code s) l
                 (Session.createdAt s) (Session.participants s)
  end.

(** [session.model_copy(update=updates)]: a copy with the listed fields
    replaced and every other field kept. *)
Definition model_copy (s : Session.t) (updates : list FieldUpdate) : Session.t :=
  fold_left apply_update updates s.

(** ** websocket.py: the transport under a [WebSocket] *)

Definition WebSocket := nat.

(** What the sockets have carried so far, in the order the frames were
    written, and the sockets whose transport no longer works. *)
Record Transport := mkTransport {
  delivered : list (WebSocket * SessionUpdate.t);
  broken : gset WebSocket
}.

(** [await websocket.accept()], the handshake of a socket that has not
    been accepted before: [websocket_endpoint] calls [connect] once, for
    the socket it is handed. It raises when the transport is lost. That a
    second [accept] on one socket raises is in [live_connect] below, which
    keeps the sockets that were accepted. *)
Definition accept (ws : WebSocket) (t : Transport) : option Transport :=
  if decide (ws ∈ broken t) then None else Some t.

(** [await connection.send_json(...)]: raises on a broken transport. *)
Definition send_json (ws : WebSocket) (message : SessionUpdate.t)
    (t : Transport) : option Transport :=
  if decide (ws ∈ broken t) then None
  else Some (mkTransport (delivered t ++ [(ws, message)]) (broken t)).

(** The frames one socket has received, oldest first. *)
Definition observed (ws : WebSocket) (t : Transport) : list SessionUpdate.t :=
  (filter (λ p, p.1 = ws) (delivered t)).*2.

(** ** websocket.py: ConnectionManager *)

(** [self._connections : dict[str, list[WebSocket]]] *)
Abbreviation Registry := (gmap string (list WebSocket)).

(** [list.remove(x)]: drops the first occurrence, [ValueError] if none. *)
Fixpoint remove_first (x : WebSocket) (l : list WebSocket) : list WebSocket :=
  match l with
  | [] => []
  | y :: l' => if decide (x = y) then l' else y :: remove_first x l'
  end.

Definition list_remove (x : WebSocket) (l : list WebSocket)
    : option (list WebSocket) :=
  if decide (x ∈ l) then Some (remove_first x l) else None.

Definition connect (websocket : WebSocket) (session_id : string)
    (conns : Registry) (t : Transport) : option (Registry * Transport) :=
  t' ← accept websocket t;
  let conns1 :=
    if decide (is_Some (conns !! session_id)) then conns
    else <[session_id := []]> conns in
  l ← conns1 !! session_id;
  Some (<[session_id := l ++ [websocket]]> conns1, t').

Definition disconnect (websocket : WebSocket) (session_id : string)
    (conns : Registry) : option Registry :=
  if decide (is_Some (conns !! session_id)) then
    l ← conns !! session_id;
    l' ← (if decide (websocket ∈ l) then list_remove websocket l else Some l);
    let conns1 := <[session_id := l']> conns in
    l'' ← conns1 !! session_id;
    match l'' with
    | [] => Some (delete session_id conns1)
    | _ :: _ => Some conns1
    end
  else Some conns.

Definition get_participant_count (session_id : string) (conns : Registry) : nat :=
  length (default [] (conns !! session_id)).

(** The [for connection in connections] loop of [broadcast], with its
    [try]/[except Exception]. *)
Fixpoint send_each (connections : list WebSocket) (message : SessionUpdate.t)
    (dead_connections : list WebSocket) (t : Transport)
    : list WebSocket * Transport :=
  match connections with
  | [] => (dead_connections, t)
  | connection :: rest =>
      match send_json connection message t with
      | Some t' => send_each rest message dead_connections t'
      | None => send_each rest message (dead_connections ++ [connection]) t
      end
  end.

(** The [for dead in dead_connections] loop of [broadcast]. *)
Fixpoint disconnect_each (dead_connections : list WebSocket)
    (session_id : string) (conns : Registry) : option Registry :=
  match dead_connections with
  | [] => Some conns
  | dead :: rest =>
      conns' ← disconnect dead session_id conns;
      disconnect_each rest session_id conns'
  end.

(** [broadcast] as one step: the call from its first line to its last,
    no other handler running while it waits in a send. What a call does
    when other handlers run in between is in [resume] below. *)
Definition broadcast (session_id : string) (message : SessionUpdate.t)
    (conns : Registry) (t : Transport) : option (Registry * Transport) :=
  let connections := default [] (conns !! session_id) in
  let '(dead_connections, t') := send_each connections message [] t in
  conns' ← disconnect_each dead_connections session_id conns;
  Some (conns', t').

Definition broadcast_code_update (session_id : string) (code : string)
    (language : Language) (now : Z) (conns : Registry) (t : Transport)
    : option (Registry * Transport) :=
  let update :=
    SessionUpdate.mk code_update session_id (Some code) (Some language)
                     None None now in
  broadcast session_id update conns t.

Definition broadcast_participant_joined (session_id : string)
    (participant_count : Z) (now : Z) (conns : Registry) (t : Transport)
    : option (Registry * Transport) :=
  let update :=
    SessionUpdate.mk participant_joined session_id None None
                     (Some participant_count) None now in
  broadcast session_id update conns t.

Definition broadcast_participant_left (session_id : string)
    (participant_count : Z) (now : Z) (conns : Registry) (t : Transport)
    : option (Registry * Transport) :=
  let update :=
    SessionUpdate.mk participant_left session_id None None
                     (Some participant_count) None now in
  broadcast session_id update conns t.

Definition broadcast_execution_result (session_id : string)
    (result : ExecutionResult.t) (now : Z) (conns : Registry) (t : Transport)
    : option (Registry * Transport) :=
  let update :=
    SessionUpdate.mk execution_result session_id None None None
                     (Some result) now in
  broadcast session_id update conns t.

(** ** websocket.py: [broadcast], from one await to the next

    [broadcast] above is one call run from its first line to its last while
    no other handler runs. The source awaits every send (websocket.py:49),
    and while a call waits there the event loop runs other handlers, which
    may call [connect] and [disconnect]: they change the very list the loop
    of line 47 is iterating over, since line 44 binds [connections] to the
    list object of the registry and not to a copy. Below a list is an
    object with an address (the position at which it was created), the
    registry maps a session id to the address of its list, and a call of
    [broadcast] that has begun holds the address it read at line 44 and the
    position of its iterator. [accepted] holds the sockets whose handshake
    is done: a second [accept] on one of them raises [RuntimeError]. *)
Record Live := mkLive {
  objects : list (list WebSocket);
  entries : gmap string nat;
  wires : Transport;
  accepted : gset WebSocket
}.

Definition contents (address : nat) (h : Live) : list WebSocket :=
  default [] (objects h !! address).

(** The registry as [connect], [disconnect] and [get_participant_count]
    read it. *)
Definition registry_of (h : Live) : Registry :=
  (λ address, contents address h) <$> entries h.

Definition empty_live : Live := mkLive [] ∅ (mkTransport [] ∅) ∅.

(** [connect]: [accept] raises for a socket that was accepted before and
    for one whose transport is lost; line 26 creates a new list object,
    line 27 appends to the object the registry holds. Nothing is awaited
    after [accept]. *)
Definition live_connect (websocket : WebSocket) (session_id : string)
    (h : Live) : option Live :=
  guard (websocket ∉ accepted h);;
  t' ← accept websocket (wires h);
  let '(address, objs) :=
    match entries h !! session_id with
    | Some address => (address, objects h)
    | None => (length (objects h), objects h ++ [[]])
    end in
  Some (mkLive (alter (λ l, l ++ [websocket]) address objs)
               (<[session_id := address]> (entries h)) t'
               ({[websocket]} ∪ accepted h)).

(** [disconnect]: [remove] changes the list object in place, [del] drops
    the entry and leaves the object, now empty, to whoever still holds
    it. Nothing is awaited. *)
Definition live_disconnect (websocket : WebSocket) (session_id : string)
    (h : Live) : Live :=
  match entries h !! session_id with
  | Some address =>
      let objs :=
        if decide (websocket ∈ contents address h)
        then alter (remove_first websocket) address (objects h)
        else objects h in
      match default [] (objs !! address) with
      | [] =>
          mkLive objs (delete session_id (entries h)) (wires h) (accepted h)
      | _ :: _ => mkLive objs (entries h) (wires h) (accepted h)
      end
  | None => h
  end.

(** A call of [broadcast] waiting in a send: [loop_connections] is the
    list of line 44 ([None] for the new empty list of the default, which no
    one else holds), [loop_position] the index the list iterator of line 47
    will read next, [loop_dead] is [dead_connections]. *)
Record Loop := mkLoop {
  loop_session : string;
  loop_message : SessionUpdate.t;
  loop_connections : option nat;
  loop_position : nat;
  loop_dead : list WebSocket
}.

Inductive Progress :=
| suspended (lp : Loop)
| returned.

(** The call goes on from one await to the next: the iterator reads the
    list as it is now at its position and the loop sends to that socket;
    when the position is past the end of the list the loop is left and the
    cleanup of lines 54-55 runs, in which nothing is awaited. *)
Definition resume (lp : Loop) (h : Live) : Progress * Live :=
  let connections :=
    match loop_connections lp with
    | Some address => contents address h
    | None => []
    end in
  match connections !! loop_position lp with
  | Some connection =>
      match send_json connection (loop_message lp) (wires h) with
      | Some t' =>
          (suspended (mkLoop (loop_session lp) (loop_message lp)
                             (loop_connections lp) (S (loop_position lp))
                             (loop_dead lp)),
           mkLive (objects h) (entries h) t' (accepted h))
      | None =>
          (suspended (mkLoop (loop_session lp) (loop_message lp)
                             (loop_connections lp) (S (loop_position lp))
                             (loop_dead lp ++ [connection])),
           h)
      end
  | None =>
      (returned,
       foldl (λ h' dead, live_disconnect dead (loop_session lp) h')
             h (loop_dead lp))
  end.

(** [broadcast] from its first line to its first await. *)
Definition live_broadcast (session_id : string) (message : SessionUpdate.t)
    (h : Live) : Progress * Live :=
  resume (mkLoop session_id message (entries h !! session_id) 0 []) h.

(** A call of [broadcast] that no other handler runs in between of. *)
Fixpoint run_to_end (fuel : nat) (p : Progress) (h : Live) : option Live :=
  match p with
  | returned => Some h
  | suspended lp =>
      match fuel with
      | O => None
      | S fuel' => let '(p', h') := resume lp h in run_to_end fuel' p' h'
      end
  end.

(** The connection manager with the calls of [broadcast] that have begun,
    in the order they began. *)
Record Server := mkServer {
  manager : Live;
  broadcasts : list Progress
}.

(** What the event loop runs next: a handler calls [connect] or
    [disconnect], a transport is lost, a handler calls [broadcast], which
    runs to its first await, or the call that began as the k-th goes on to
    its next await or to its end. *)
Inductive Step :=
| st_connect (websocket : WebSocket) (session_id : string)
| st_disconnect (websocket : WebSocket) (session_id : string)
| st_transport_lost (websocket : WebSocket)
| st_broadcast (session_id : string) (message : SessionUpdate.t)
| st_resume (k : nat).

Definition apply_step (st : Step) (s : Server) : option Server :=
  match st with
  | st_connect websocket session_id =>
      h ← live_connect websocket session_id (manager s);
      Some (mkServer h (broadcasts s))
  | st_disconnect websocket session_id =>
      Some (mkServer (live_disconnect websocket session_id (manager s))
                     (broadcasts s))
  | st_transport_lost websocket =>
      let h := manager s in
      Some (mkServer
              (mkLive (objects h) (entries h)
                      (mkTransport (delivered (wires h))
                                   ({[websocket]} ∪ broken (wires h)))
                      (accepted h))
              (broadcasts s))
  | st_broadcast session_id message =>
      let '(p, h) := live_broadcast session_id message (manager s) in
      Some (mkServer h (broadcasts s ++ [p]))
  | st_resume k =>
      match broadcasts s !! k with
      | Some (suspended lp) =>
          let '(p, h) := resume lp (manager s) in
          Some (mkServer h (<[k := p]> (broadcasts s)))
      | _ => None
      end
  end.

Fixpoint run_steps (sts : list Step) (s : Server) : option Server :=
  match sts with
  | [] => Some s
  | st :: rest => s' ← apply_step st s; run_steps rest s'
  end.

Definition empty_server : Server := mkServer empty_live [].

(** Every entry of the registry holds the address of a list that was
    created, no two entries hold the same list, and every registered
    socket has been accepted. *)
Definition live_wf (h : Live) : Prop :=
  (∀ session_id address,
     entries h !! session_id = Some address →
     (address < length (objects h))%nat)
  ∧ (∀ session_id session_id' address,
       entries h !! session_id = Some address →
       entries h !! session_id' = Some address →
       session_id = session_id')
  ∧ (∀ session_id address ws,
       entries h !! session_id = Some address →
       ws ∈ contents address h → ws ∈ accepted h).

(** No list of the registry holds a socket twice. *)
Definition registered_once (h : Live) : Prop :=
  ∀ session_id address,
    entries h !! session_id = Some address → NoDup (contents address h).

(** ** The session repository *)

(** Modelled from the spec: [app/repositories/base.py] is not among the
    sources. The protocol has the five operations of the Session Store
    contract; [create] also takes the clock reading it stamps the record
    with, and [get] is a pure lookup. *)
Class SessionRepositoryProtocol (R : Type) := {
  create : Language → Z → R → Session.t * R;
  get : string → R → option Session.t;
  update : Session.t → R → option Session.t * R;
  increment_participants : string → R → option Session.t * R;
  decrement_participants : string → R → option Session.t * R
}.

Abbreviation Store := (gmap string Session.t).

Definition set_participants (n : Z) (s : Session.t) : Session.t :=
  Session.mk (Session.id s) (Session.code s) (Session.language s)
             (Session.createdAt s) n.

(** Modelled from the spec: [app/repositories/memory.py] is not among the
    sources. [create] allocates an id no stored record has and builds the
    record with the defaults of [models.Session] (empty code, no
    participants); [update] replaces the record stored under the id of the
    one supplied and signals absence otherwise; the counter operations are
    single atomic steps and the decrement clamps at zero. *)
Definition memory_create (language : Language) (now : Z) (m : Store)
    : Session.t * Store :=
  let session_id := fresh_string "session" m in
  let session := Session.mk session_id "" language now 0 in
  (session, <[session_id := session]> m).

(** Modelled from the spec: [get] of the in-memory store, which is not
    among the sources; a pure lookup with absence as a normal outcome. *)
Definition memory_get (session_id : string) (m : Store) : option Session.t :=
  m !! session_id.

(** Modelled from the spec: [update] of the in-memory store, which is not
    among the sources; it replaces the whole record stored under the id of
    the one supplied and never creates one. *)
Definition memory_update (session : Session.t) (m : Store)
    : option Session.t * Store :=
  match m !! Session.id session with
  | Some _ => (Some session, <[Session.id session := session]> m)
  | None => (None, m)
  end.

(** Modelled from the spec: [increment_participants] of the in-memory
    store, which is not among the sources; one atomic step. *)
Definition memory_increment_participants (session_id : string) (m : Store)
    : option Session.t * Store :=
  match m !! session_id with
  | Some s =>
      let s' := set_participants (Session.participants s + 1) s in
      (Some s', <[session_id := s']> m)
  | None => (None, m)
  end.

(** Modelled from the spec: [decrement_participants] of the in-memory
    store, which is not among the sources; one atomic step that clamps the
    counter at zero. *)
Definition memory_decrement_participants (session_id : string) (m : Store)
    : option Session.t * Store :=
  match m !! session_id with
  | Some s =>
      let s' := set_participants (Z.max 0 (Session.participants s - 1)) s in
      (Some s', <[session_id := s']> m)
  | None => (None, m)
  end.

(** Modelled from the spec: [InMemorySessionRepository], the backend
    [database.get_repository] yields by default; its module is not among
    the sources. *)
#[global] Instance InMemorySessionRepository : SessionRepositoryProtocol Store := {
  create := memory_create;
  get := memory_get;
  update := memory_update;
  increment_participants := memory_increment_participants;
  decrement_participants := memory_decrement_participants
}.

(** ** services/session_service.py *)

Module SessionService.
Section Service.
Context {R : Type} `{SessionRepositoryProtocol R}.

(** [language: str = "javascript"]: [None] is the omitted argument. *)
Definition create_session (language : option Language) (now : Z) (r : R)
    : Session.t * R :=
  create (default javascript language) now r.

Definition get_session (session_id : string) (r : R) : option Session.t :=
  get session_id r.

Definition update_code (session_id : string) (request : UpdateCodeRequest.t)
    (r : R) : option Session.t * R :=
  match get session_id r with
  | None => (None, r)
  | Some session =>
      let updates := [set_code (UpdateCodeRequest.code request)] in
      let updates :=
        match UpdateCodeRequest.language request with
        | Some l => updates ++ [set_language l]
        | None => updates
        end in
      let updated_session := model_copy session updates in
      update updated_session r
  end.

Definition add_participant (session_id : string) (r : R)
    : option Session.t * R :=
  increment_participants session_id r.

Definition remove_participant (session_id : string) (r : R)
    : option Session.t * R :=
  decrement_participants session_id r.

End Service.
End SessionService.

(** ** The running application *)

Module CreateSessionRequest.
Record t := mk {
  language : Language
}.
End CreateSessionRequest.

(** A task handed to [background_tasks.add_task]: it runs after the
    response of its own request, at a time the handler does not control. *)
Inductive BackgroundTask :=
| task_broadcast_code_update (session_id : string) (code : string)
    (language : Language)
| task_broadcast_execution_result (session_id : string)
    (result : ExecutionResult.t).

(** The process-wide state: [websocket.connection_manager._connections],
    the sockets, [database._memory_repository], the background tasks added
    and not yet run, and the clock [datetime.now] reads. *)
Record App := mkApp {
  connection_manager : Registry;
  sockets : Transport;
  memory_repository : Store;
  background : list BackgroundTask;
  clock : Z
}.

Inductive HTTPException := HTTP_404_NOT_FOUND.

(** *** routers/sessions.py *)

Module sessions.

Definition create_session (request : option CreateSessionRequest.t) (a : App)
    : Session.t * App :=
  let language :=
    match request with
    | Some r => CreateSessionRequest.language r
    | None => javascript
    end in
  let '(session, repo) :=
    SessionService.create_session (Some language) (clock a)
                                  (memory_repository a) in
  (session, mkApp (connection_manager a) (sockets a) repo (background a)
                  (clock a)).

Definition update_code (session_id : string) (request : UpdateCodeRequest.t)
    (a : App) : (HTTPException + Session.t) * App :=
  let '(session, repo) :=
    SessionService.update_code session_id request (memory_repository a) in
  match session with
  | None =>
      (inl HTTP_404_NOT_FOUND,
       mkApp (connection_manager a) (sockets a) repo (background a) (clock a))
  | Some s =>
      let task :=
        task_broadcast_code_update session_id (Session.code s)
                                   (Session.language s) in
      (inr s,
       mkApp (connection_manager a) (sockets a) repo (background a ++ [task])
             (clock a))
  end.

End sessions.

(** One background task, run to its end. *)
Definition run_background_task (task : BackgroundTask) (a : App) : option App :=
  '(conns, t) ←
    match task with
    | task_broadcast_code_update session_id code language =>
        broadcast_code_update session_id code language (clock a)
                              (connection_manager a) (sockets a)
    | task_broadcast_execution_result session_id result =>
        broadcast_execution_result session_id result (clock a)
                                   (connection_manager a) (sockets a)
    end;
  Some (mkApp conns t (memory_repository a) (background a) (clock a)).

(** *** main.py: [websocket_endpoint] *)

(** From the lookup of the session to the [participant_joined] broadcast. *)
Definition websocket_endpoint_open (websocket : WebSocket)
    (session_id : string) (a : App) : option App :=
  match SessionService.get_session session_id (memory_repository a) with
  | None => Some a
  | Some _ =>
      '(conns, t) ←
        connect websocket session_id (connection_manager a) (sockets a);
      let '(_, repo) :=
        SessionService.add_participant session_id (memory_repository a) in
      let updated_session := SessionService.get_session session_id repo in
      let participant_count :=
        match updated_session with
        | Some s => Session.participants s
        | None => 0
        end in
      '(conns', t') ←
        broadcast_participant_joined session_id participant_count (clock a)
                                     conns t;
      Some (mkApp conns' t' repo (background a) (clock a))
  end.

(** The [finally] block. *)
Definition websocket_endpoint_close (websocket : WebSocket)
    (session_id : string) (a : App) : option App :=
  conns ← disconnect websocket session_id (connection_manager a);
  let '(_, repo) :=
    SessionService.remove_participant session_id (memory_repository a) in
  let updated_session := SessionService.get_session session_id repo in
  let participant_count :=
    match updated_session with
    | Some s => Session.participants s
    | None => 0
    end in
  '(conns', t') ←
    broadcast_participant_left session_id participant_count (clock a)
                               conns (sockets a);
  Some (mkApp conns' t' repo (background a) (clock a)).

(** *** What can happen to the application *)

Inductive Event :=
| ev_post_session (request : option CreateSessionRequest.t)
| ev_put_code (session_id : string) (request : UpdateCodeRequest.t)
| ev_background (i : nat)
| ev_ws_open (websocket : WebSocket) (session_id : string)
| ev_ws_close (websocket : WebSocket) (session_id : string)
| ev_transport_lost (websocket : WebSocket)
| ev_tick.

(** [ev_put_code] is the handler of [PUT /sessions/{id}/code] up to its
    response; [ev_background i] runs the [i]-th pending task; the last two
    are the environment's: a transport fails, the clock advances. *)
Definition apply_event (ev : Event) (a : App) : option App :=
  match ev with
  | ev_post_session request => Some (sessions.create_session request a).2
  | ev_put_code session_id request =>
      Some (sessions.update_code session_id request a).2
  | ev_background i =>
      task ← background a !! i;
      a' ← run_background_task task a;
      Some (mkApp (connection_manager a') (sockets a') (memory_repository a')
                  (delete i (background a')) (clock a'))
  | ev_ws_open websocket session_id =>
      websocket_endpoint_open websocket session_id a
  | ev_ws_close websocket session_id =>
      websocket_endpoint_close websocket session_id a
  | ev_transport_lost websocket =>
      Some (mkApp (connection_manager a)
                  (mkTransport (delivered (sockets a))
                               ({[websocket]} ∪ broken (sockets a)))
                  (memory_repository a) (background a) (clock a))
  | ev_tick =>
      Some (mkApp (connection_manager a) (sockets a) (memory_repository a)
                  (background a) (clock a + 1))
  end.

Fixpoint run_events (evs : list Event) (a : App) : option App :=
  match evs with
  | [] => Some a
  | ev :: rest => a' ← apply_event ev a; run_events rest a'
  end.

Definition empty_app : App :=
  mkApp ∅ (mkTransport [] ∅) ∅ [] 0.

(** ** Vocabulary of the properties *)

(** The connections registered for a session, in registration order. *)
Definition subscribers (session_id : string) (conns : Registry)
    : list WebSocket :=
  default [] (conns !! session_id).

(** No entry of the registry holds an empty list. *)
Definition registry_inv (conns : Registry) : Prop :=
  ∀ session_id l, conns !! session_id = Some l → l ≠ [].

(** The registry with the list of one session replaced, the entry dropped
    when the list is empty. *)
Definition put_subscribers (session_id : string) (l : list WebSocket)
    (conns : Registry) : Registry :=
  match l with
  | [] => delete session_id conns
  | _ :: _ => <[session_id := l]> conns
  end.

(** A socket on which [send_json] succeeds. *)
Definition healthy (t : Transport) (ws : WebSocket) : Prop := ws ∉ broken t.

#[global] Instance healthy_dec t ws : Decision (healthy t ws).
Proof. unfold healthy. apply _. Defined.

(** [message] written once to each socket of [l], in order. *)
Definition frames (message : SessionUpdate.t) (l : list WebSocket)
    : list (WebSocket * SessionUpdate.t) :=
  (λ ws, (ws, message)) <$> l.

(** Every record is stored under its own id. *)
Definition store_inv (m : Store) : Prop :=
  ∀ session_id s, m !! session_id = Some s → Session.id s = session_id.

Definition counters_nonneg (m : Store) : Prop :=
  ∀ session_id s, m !! session_id = Some s → 0 ≤ Session.participants s.

(** A call into [SessionService] on the in-memory repository. *)
Inductive ServiceCall :=
| call_create_session (language : option Language) (now : Z)
| call_update_code (session_id : string) (request : UpdateCodeRequest.t)
| call_add_participant (session_id : string)
| call_remove_participant (session_id : string).

Definition apply_call (c : ServiceCall) (m : Store) : Store :=
  match c with
  | call_create_session language now =>
      (SessionService.create_session language now m).2
  | call_update_code session_id request =>
      (SessionService.update_code session_id request m).2
  | call_add_participant session_id =>
      (SessionService.add_participant session_id m).2
  | call_remove_participant session_id =>
      (SessionService.remove_participant session_id m).2
  end.

Definition run_calls (calls : list ServiceCall) (m : Store) : Store :=
  fold_left (λ acc c, apply_call c acc) calls m.

(** The two counter calls; an interleaving of concurrent calls is the
    list of them in the order the store serves them, one at a time. *)
Inductive CounterCall := incr | decr.

Definition apply_counter (session_id : string) (c : CounterCall) (m : Store)
    : Store :=
  match c with
  | incr => (SessionService.add_participant session_id m).2
  | decr => (SessionService.remove_participant session_id m).2
  end.

Definition run_counter (session_id : string) (calls : list CounterCall)
    (m : Store) : Store :=
  fold_left (λ acc c, apply_counter session_id c acc) calls m.

Fixpoint increments (calls : list CounterCall) : Z :=
  match calls with
  | [] => 0
  | incr :: rest => 1 + increments rest
  | decr :: rest => increments rest
  end.

Fixpoint decrements (calls : list CounterCall) : Z :=
  match calls with
  | [] => 0
  | incr :: rest => decrements rest
  | decr :: rest => 1 + decrements rest
  end.

(** How many of the decrements of [calls] find the counter at zero, when
    it starts at [p]. *)
Fixpoint clamped (p : Z) (calls : list CounterCall) : Z :=
  match calls with
  | [] => 0
  | incr :: rest => clamped (p + 1) rest
  | decr :: rest =>
      if decide (p ≤ 0) then 1 + clamped 0 rest else clamped (p - 1) rest
  end.

(** The record [update_code] stores for a request. *)
Definition merge_request (s : Session.t) (request : UpdateCodeRequest.t)
    : Session.t :=
  Session.mk (Session.id s) (UpdateCodeRequest.code request)
             (default (Session.language s) (UpdateCodeRequest.language request))
             (Session.createdAt s) (Session.participants s).

(** The event [broadcast_code_update] builds for a stored record. *)
Definition code_update_event (s : Session.t) (now : Z) : SessionUpdate.t :=
  SessionUpdate.mk code_update (Session.id s) (Some (Session.code s))
                   (Some (Session.language s)) None None now.

(** The message [broadcast_code_update] builds. *)
Definition code_update_message (session_id code : string)
    (language : Language) (now : Z) : SessionUpdate.t :=
  SessionUpdate.mk code_update session_id (Some code) (Some language)
                   None None now.

(** The task the route of [update_code] hands to [background_tasks] for a
    request on the stored record [s]. *)
Definition code_update_task (session_id : string) (s : Session.t)
    (request : UpdateCodeRequest.t) : BackgroundTask :=
  task_broadcast_code_update session_id (UpdateCodeRequest.code request)
    (default (Session.language s) (UpdateCodeRequest.language request)).

Definition participant_event (kind : UpdateType) (session_id : string)
    (count : Z) (now : Z) : SessionUpdate.t :=
  SessionUpdate.mk kind session_id None None (Some count) None now.

(** How many times a socket occurs in a list. *)
Definition occurrences (ws : WebSocket) (l : list WebSocket) : nat :=
  length (filter (λ x, x = ws) l).



Definition no_transport_lost (a : App) : Prop := broken (sockets a) = ∅.






(** *** Fixtures, after tests/conftest.py *)

(** A python session with one participant, and the application holding it
    with socket 1 registered. *)
Definition sample_session : Session.t :=
  Session.mk "session" "" python 0 1.

Definition sample_app : App :=
  mkApp {["session" := [1%nat]]} (mkTransport [] ∅)
        {["session" := sample_session]} [] 0.

Definition edit_a : UpdateCodeRequest.t := UpdateCodeRequest.mk "a" None.

Definition edit_b : UpdateCodeRequest.t := UpdateCodeRequest.mk "b" None.


(** Two code-update events of one session. *)
Definition sample_update : SessionUpdate.t :=
  code_update_message "session" "a" python 0.

Definition later_update : SessionUpdate.t :=
  code_update_message "session" "b" python 0.

(** Sockets 1, 2 and 3 enter "session" and the transport of socket 1 is
    lost. *)
Definition three_sockets : list Step :=
  [st_connect 1%nat "session"; st_connect 2%nat "session";
   st_connect 3%nat "session"; st_transport_lost 1%nat].

(** A call of [broadcast] meets the departure of socket 1: the send to
    socket 1 fails, and while the call waits in it the handler of socket 1
    runs the [disconnect] of its [finally] block (main.py:129); then the
    call goes on to its end. *)
Definition departure_during_broadcast : list Step :=
  three_sockets
  ++ [st_broadcast "session" sample_update; st_disconnect 1%nat "session";
      st_resume 0; st_resume 0].

(** The same call with no handler running during its sends. *)
Definition broadcast_alone : list Step :=
  three_sockets
  ++ [st_broadcast "session" sample_update; st_resume 0; st_resume 0;
      st_resume 0].

(** Two calls of [broadcast] for one session: the second begins while the
    first waits in its send to socket 1, and goes on first. *)
Definition overlapping_broadcasts : list Step :=
  [st_connect 1%nat "session"; st_connect 2%nat "session";
   st_broadcast "session" sample_update; st_broadcast "session" later_update;
   st_resume 1; st_resume 0; st_resume 0; st_resume 1].

(** What a run of steps leaves: the sockets registered for "session", the
    calls of [broadcast], and what sockets 1, 2 and 3 have observed. *)
Definition outcome (s : Server)
    : list WebSocket * list Progress
      * (list SessionUpdate.t * list SessionUpdate.t * list SessionUpdate.t) :=
  (default [] (registry_of (manager s) !! "session"), broadcasts s,
   (observed 1%nat (wires (manager s)), observed 2%nat (wires (manager s)),
    observed 3%nat (wires (manager s)))).

(** The list objects of a registry with sockets 1 and 2 in "session", the
    transport of socket 1 lost. *)
Definition sample_live : Live :=
  mkLive [[1%nat; 2%nat]] {["session" := 0%nat]}
         (mkTransport [] {[1%nat]}) {[1%nat; 2%nat]}.

(** ** routers/sessions.py: the remaining routes *)

(** [GET /sessions/{session_id}] *)
Definition sessions_get_session (session_id : string) (a : App)
    : (HTTPException + Session.t) * App :=
  match SessionService.get_session session_id (memory_repository a) with
  | None => (inl HTTP_404_NOT_FOUND, a)
  | Some session => (inr session, a)
  end.


(** The requests of a list served by [SessionService.update_code], one
    after the other, on one session. *)
Definition run_updates (session_id : string)
    (requests : list UpdateCodeRequest.t) (m : Store) : Store :=
  fold_left (λ acc r, (SessionService.update_code session_id r acc).2)
            requests m.

(** The fields each kind of [SessionUpdate] carries on the wire. *)
Definition event_well_shaped (m : SessionUpdate.t) : Prop :=
  match SessionUpdate.type m with
  | code_update =>
      is_Some (SessionUpdate.code m) ∧ is_Some (SessionUpdate.language m)
      ∧ SessionUpdate.participants m = None
      ∧ SessionUpdate.executionResult m = None
  | participant_joined | participant_left =>
      SessionUpdate.code m = None ∧ SessionUpdate.language m = None
      ∧ is_Some (SessionUpdate.participants m)
      ∧ SessionUpdate.executionResult m = None
  | execution_result =>
      SessionUpdate.code m = None ∧ SessionUpdate.language m = None
      ∧ SessionUpdate.participants m = None
      ∧ is_Some (SessionUpdate.executionResult m)
  end.

(** ** config.py *)

Inductive RepositoryType := repository_memory | repository_postgres.

Module Settings.
Record t := mk {
  database_url : string;
  database_echo : bool;
  database_pool_size : Z;
  database_max_overflow : Z;
  repository_type : RepositoryType
}.
End Settings.

(** The values of the class attributes. *)
Definition default_settings : Settings.t :=
  Settings.mk "memory://" false 5 10 repository_memory.

(** [s.startswith(prefix)] *)
Definition startswith (s prefix : string) : bool := String.prefix prefix s.

Fixpoint string_drop (n : nat) (s : string) : string :=
  match n, s with
  | O, _ => s
  | S n', String _ s' => string_drop n' s'
  | S _, EmptyString => EmptyString
  end.

(** [s.replace(old, new, 1)]: the leftmost occurrence of [old] replaced. *)
Fixpoint replace_first (s old new : string) : string :=
  if String.prefix old s
  then String.append new (string_drop (String.length old) s)
  else match s with
       | EmptyString => EmptyString
       | String c s' => String c (replace_first s' old new)
       end.

Definition is_postgres (self : Settings.t) : bool :=
  match Settings.repository_type self with
  | repository_postgres => true
  | repository_memory => false
  end
  || startswith (Settings.database_url self) "postgresql".

Definition async_database_url (self : Settings.t) : string :=
  let url := Settings.database_url self in
  if startswith url "postgresql://"
  then replace_first url "postgresql://" "postgresql+asyncpg://"
  else if startswith url "postgres://"
  then replace_first url "postgres://" "postgresql+asyncpg://"
  else url.

Definition with_database_url (url : string) (self : Settings.t) : Settings.t :=
  Settings.mk url (Settings.database_echo self)
              (Settings.database_pool_size self)
              (Settings.database_max_overflow self)
              (Settings.repository_type self).

(** * Properties *)

(** ** The connection manager *)

Lemma remove_first_notin x l : x ∉ l → remove_first x l = l.
Proof.
  induction l as [|y l IH]; simpl; [done|].
  intros [Hne Hx]%not_elem_of_cons.
  rewrite decide_False by done. by rewrite IH.
Qed.

Lemma remove_first_length x l :
  x ∈ l → S (length (remove_first x l)) = length l.
Proof.
  induction l as [|y l IH]; simpl.
  - by intros ?%elem_of_nil.
  - intros Hx. destruct (decide (x = y)) as [->|Hne]; [done|].
    simpl. f_equal. apply IH. by apply elem_of_cons in Hx as [?|?].
Qed.

Lemma remove_first_subseteq x l : remove_first x l ⊆ l.
Proof.
  induction l as [|y l IH]; simpl; [done|].
  destruct (decide (x = y)) as [->|Hne].
  - intros z Hz. by right.
  - intros z [->|Hz]%elem_of_cons; [left|right; by apply IH].
Qed.

Lemma put_subscribers_lookup sid l conns :
  subscribers sid (put_subscribers sid l conns) = l.
Proof.
  unfold subscribers, put_subscribers. destruct l.
  - by rewrite lookup_delete_eq.
  - by rewrite lookup_insert_eq.
Qed.

Lemma put_subscribers_other sid sid' l conns :
  sid ≠ sid' → put_subscribers sid l conns !! sid' = conns !! sid'.
Proof.
  intros Hne. unfold put_subscribers. destruct l.
  - by rewrite lookup_delete_ne.
  - by rewrite lookup_insert_ne.
Qed.

Lemma put_subscribers_inv sid l conns :
  registry_inv conns → registry_inv (put_subscribers sid l conns).
Proof.
  intros Hinv sid' l'. unfold put_subscribers. destruct l as [|c l].
  - intros [_ Hl]%lookup_delete_Some. by eapply Hinv.
  - intros [[_ <-]|[_ Hl]]%lookup_insert_Some; [done|by eapply Hinv].
Qed.

Lemma put_subscribers_same sid conns :
  registry_inv conns → put_subscribers sid (subscribers sid conns) conns = conns.
Proof.
  intros Hinv. unfold put_subscribers, subscribers.
  destruct (conns !! sid) as [l|] eqn:Hl; simpl.
  - destruct l; [by destruct (Hinv _ _ Hl)|by apply insert_id].
  - by apply delete_id.
Qed.

Lemma put_subscribers_twice sid l l' conns :
  put_subscribers sid l (put_subscribers sid l' conns)
  = put_subscribers sid l conns.
Proof.
  unfold put_subscribers. destruct l, l';
    by rewrite ?delete_delete_eq, ?delete_insert_eq, ?insert_delete_eq,
               ?insert_insert_eq.
Qed.

(** [disconnect] never raises; it rewrites the list of its session. *)
Lemma disconnect_eq ws sid (conns : Registry) :
  disconnect ws sid conns =
  Some (match conns !! sid with
        | Some l => put_subscribers sid (remove_first ws l) conns
        | None => conns
        end).
Proof.
  unfold disconnect. destruct (conns !! sid) as [l|] eqn:Hl.
  - case_decide as Hs; [|by destruct Hs; eauto]. simpl.
    assert (Hrm : (if decide (ws ∈ l) then list_remove ws l else Some l)
                  = Some (remove_first ws l)).
    { unfold list_remove. destruct (decide (ws ∈ l)) as [Hin|Hnin].
      - done.
      - by rewrite remove_first_notin. }
    rewrite Hrm. simpl. rewrite lookup_insert_eq. simpl.
    unfold put_subscribers. destruct (remove_first ws l); [|done].
    by rewrite delete_insert_eq.
  - case_decide as Hs; [by destruct Hs|done].
Qed.

Lemma disconnect_subscribers ws sid (conns conns' : Registry) :
  disconnect ws sid conns = Some conns' →
  subscribers sid conns' = remove_first ws (subscribers sid conns).
Proof.
  rewrite disconnect_eq. intros [= <-]. unfold subscribers at 2.
  destruct (conns !! sid) as [l|] eqn:Hl; simpl.
  - apply put_subscribers_lookup.
  - unfold subscribers. by rewrite Hl.
Qed.

Lemma disconnect_other ws sid sid' (conns conns' : Registry) :
  disconnect ws sid conns = Some conns' → sid ≠ sid' →
  conns' !! sid' = conns !! sid'.
Proof.
  rewrite disconnect_eq. intros [= <-] Hne.
  destruct (conns !! sid); [by apply put_subscribers_other|done].
Qed.

Lemma disconnect_inv ws sid (conns conns' : Registry) :
  registry_inv conns → disconnect ws sid conns = Some conns' →
  registry_inv conns'.
Proof.
  intros Hinv. rewrite disconnect_eq. intros [= <-].
  destruct (conns !! sid); [by apply put_subscribers_inv|done].
Qed.

Lemma disconnect_put ws sid (conns : Registry) :
  registry_inv conns →
  disconnect ws sid conns
  = Some (put_subscribers sid (remove_first ws (subscribers sid conns)) conns).
Proof.
  intros Hinv. rewrite disconnect_eq. unfold subscribers.
  destruct (conns !! sid) as [l|] eqn:Hl; simpl; [done|].
  by rewrite delete_id.
Qed.

Lemma filter_keeps_all {A} (P : A → Prop) `{∀ x, Decision (P x)} (l : list A) :
  (∀ x, x ∈ l → P x) → filter P l = l.
Proof.
  induction l as [|a l IH]; intros Hall; [done|].
  rewrite filter_cons_True by (apply Hall; left).
  f_equal. apply IH. intros x Hx. apply Hall. by right.
Qed.

Lemma filter_drops_all {A} (P : A → Prop) `{∀ x, Decision (P x)} (l : list A) :
  (∀ x, x ∈ l → ¬ P x) → filter P l = [].
Proof.
  induction l as [|a l IH]; intros Hall; [done|].
  rewrite filter_cons_False by (apply Hall; left).
  apply IH. intros x Hx. apply Hall. by right.
Qed.

Lemma send_each_eq conns msg dead t :
  send_each conns msg dead t =
  (dead ++ filter (λ ws, ¬ healthy t ws) conns,
   mkTransport (delivered t ++ frames msg (filter (healthy t) conns))
               (broken t)).
Proof.
  revert dead t. induction conns as [|c conns IH]; intros dead t; simpl.
  - rewrite !app_nil_r. by destruct t.
  - unfold send_json. destruct (decide (c ∈ broken t)) as [Hb|Hb].
    + rewrite IH. rewrite filter_cons_True by (unfold healthy; tauto).
      rewrite (filter_cons_False (healthy t)) by (unfold healthy; tauto).
      by rewrite <- app_assoc.
    + rewrite IH. simpl.
      rewrite filter_cons_False by (unfold healthy; tauto).
      rewrite (filter_cons_True (healthy t)) by done.
      unfold frames. rewrite fmap_cons, <- app_assoc. done.
Qed.

(** Removing the failed sockets one by one, each at its first occurrence,
    leaves exactly the sockets that did not fail. *)
Lemma prune_failed (P : WebSocket → Prop) `{∀ x, Decision (P x)} pre l :
  (∀ x, x ∈ pre → ¬ P x) →
  fold_left (λ acc d, remove_first d acc) (filter P l) (pre ++ l)
  = pre ++ filter (λ x, ¬ P x) l.
Proof.
  revert pre. induction l as [|a l IH]; intros pre Hpre; simpl.
  - done.
  - destruct (decide (P a)) as [Ha|Ha].
    + rewrite filter_cons_True by done.
      rewrite (filter_cons_False (λ x, ¬ P x)) by tauto. simpl.
      assert (Hrm : remove_first a (pre ++ a :: l) = pre ++ l).
      { clear IH. induction pre as [|b pre IHp]; simpl.
        - by rewrite decide_True.
        - rewrite decide_False.
          + f_equal. apply IHp. intros x Hx. apply Hpre. by right.
          + intros ->. apply (Hpre b); [left|done]. }
      rewrite Hrm. by apply IH.
    + rewrite filter_cons_False by done.
      rewrite (filter_cons_True (λ x, ¬ P x)) by done.
      rewrite (cons_middle a pre l), app_assoc.
      rewrite IH; [by rewrite <- app_assoc|].
      intros x [Hx| ->%list_elem_of_singleton]%elem_of_app; auto.
Qed.

Lemma disconnect_each_spec dead sid (conns : Registry) :
  ∃ conns',
    disconnect_each dead sid conns = Some conns'
    ∧ subscribers sid conns'
      = fold_left (λ acc d, remove_first d acc) dead (subscribers sid conns)
    ∧ (∀ sid', sid ≠ sid' → conns' !! sid' = conns !! sid')
    ∧ (registry_inv conns → registry_inv conns').
Proof.
  revert conns. induction dead as [|d dead IH]; intros conns; simpl.
  - by exists conns.
  - destruct (disconnect d sid conns) as [conns1|] eqn:Hd;
      [|by rewrite disconnect_eq in Hd].
    simpl. destruct (IH conns1) as (conns' & Hrun & Hsub & Hoth & Hinv).
    exists conns'. split_and!; [done| | |].
    + by rewrite Hsub, (disconnect_subscribers _ _ _ _ Hd).
    + intros sid' Hne. rewrite Hoth by done. by eapply disconnect_other.
    + intros Hc. apply Hinv. by eapply disconnect_inv.
Qed.

Lemma broadcast_spec sid msg (conns : Registry) t :
  ∃ conns',
    broadcast sid msg conns t
    = Some (conns',
            mkTransport
              (delivered t
               ++ frames msg (filter (healthy t) (subscribers sid conns)))
              (broken t))
    ∧ subscribers sid conns' = filter (healthy t) (subscribers sid conns)
    ∧ (∀ sid', sid ≠ sid' → conns' !! sid' = conns !! sid')
    ∧ (registry_inv conns → registry_inv conns')
    ∧ ((∀ ws, ws ∈ subscribers sid conns → healthy t ws) → conns' = conns).
Proof.
  unfold broadcast. fold (subscribers sid conns).
  rewrite send_each_eq. simpl.
  destruct (disconnect_each_spec
              (filter (λ ws, ¬ healthy t ws) (subscribers sid conns))
              sid conns) as (conns' & Hrun & Hsub & Hoth & Hinv).
  exists conns'. rewrite Hrun. simpl. split_and!; [done| |done|done|].
  - rewrite Hsub.
    rewrite (prune_failed (λ ws, ¬ healthy t ws) [] (subscribers sid conns))
      by (by intros ? ?%elem_of_nil).
    simpl. apply list_filter_iff. intros ws. split; [|tauto].
    intros Hnn. destruct (decide (healthy t ws)); tauto.
  - intros Hall.
    assert (Hnil : filter (λ ws, ¬ healthy t ws) (subscribers sid conns) = []).
    { apply filter_drops_all. intros ws Hws Hn. by apply Hn, Hall. }
    rewrite Hnil in Hrun. simpl in Hrun. congruence.
Qed.

Lemma connect_eq ws sid (conns : Registry) t :
  connect ws sid conns t =
  if decide (healthy t ws)
  then Some (<[sid := subscribers sid conns ++ [ws]]> conns, t)
  else None.
Proof.
  unfold connect, accept, subscribers.
  destruct (decide (healthy t ws)) as [Hh|Hh]; unfold healthy in Hh.
  - destruct (decide (ws ∈ broken t)) as [Hb|Hb]; [by destruct Hh|]. simpl.
    destruct (conns !! sid) as [l|] eqn:Hl.
    + case_decide as Hs; [|by destruct Hs; eauto]. by rewrite Hl.
    + case_decide as Hs; [by destruct Hs|].
      rewrite lookup_insert_eq. simpl. by rewrite insert_insert_eq.
  - destruct (decide (ws ∈ broken t)) as [Hb|Hb]; [done|by destruct Hh].
Qed.

Lemma connect_inv ws sid (conns conns' : Registry) t t' :
  registry_inv conns → connect ws sid conns t = Some (conns', t') →
  registry_inv conns'.
Proof.
  intros Hinv. rewrite connect_eq. case_decide; [|done]. intros [= <- <-].
  intros sid' l [[_ <-]|[_ Hl]]%lookup_insert_Some.
  - by destruct (subscribers sid conns).
  - by eapply Hinv.
Qed.

Lemma registry_inv_empty : registry_inv ∅.
Proof. intros sid l. by rewrite lookup_empty. Qed.

Lemma subscribers_nil_iff sid (conns : Registry) :
  registry_inv conns → subscribers sid conns = [] ↔ conns !! sid = None.
Proof.
  intros Hinv. unfold subscribers. split.
  - destruct (conns !! sid) as [l|] eqn:Hl; [|done]. simpl. intros ->.
    by destruct (Hinv _ _ Hl).
  - by intros ->.
Qed.

(** C5 on the code, which does not keep it: a send that fails is caught,
    but not every other registered connection is attempted. Sockets 1, 2
    and 3 are registered for one session and the transport of socket 1 is
    lost. A call of [broadcast] sends to socket 1, which fails; while the
    call waits in that send, the handler of socket 1 runs the [disconnect]
    of its [finally] block. The list the loop iterates over is now
    [[2; 3]] and its iterator stands at position 1: the call goes on with
    socket 3 and returns. Socket 2, registered all along and with a working
    transport, has observed nothing. The same call with no handler running
    during its sends reaches sockets 2 and 3. *)
Lemma broadcast_skips_registered_socket :
  outcome <$> run_steps three_sockets empty_server
  = Some ([1; 2; 3]%nat, [], ([], [], []))
  ∧ outcome <$> run_steps departure_during_broadcast empty_server
    = Some ([2; 3]%nat, [returned], ([], [], [sample_update]))
  ∧ (∀ s, run_steps departure_during_broadcast empty_server = Some s →
          healthy (wires (manager s)) 2%nat)
  ∧ outcome <$> run_steps broadcast_alone empty_server
    = Some ([2; 3]%nat, [returned], ([], [sample_update], [sample_update])).
Proof.
  split_and!; [by vm_compute|by vm_compute| |by vm_compute].
  intros s Hs. vm_compute in Hs. injection Hs as <-.
  refine (bool_decide_unpack _ _). vm_compute. exact I.
Qed.

(** C7. [disconnect] of a socket that is not registered for the session
    raises nothing and changes nothing: the list of every session and every
    participant count are as before, and the registry itself is unchanged
    whenever it holds no empty list. Hence once a socket is no longer
    registered a further [disconnect] returns the registry it was given;
    that is the case after the first [disconnect] of a socket registered
    once. [disconnect] has no access to the session repository. *)
Theorem disconnect_unregistered_is_noop :
  ∀ (ws : WebSocket) (session_id : string) (conns : Registry),
    (ws ∉ subscribers session_id conns →
       ∃ conns',
         disconnect ws session_id conns = Some conns'
         ∧ (∀ sid, subscribers sid conns' = subscribers sid conns)
         ∧ (∀ sid, get_participant_count sid conns'
                   = get_participant_count sid conns)
         ∧ (registry_inv conns → conns' = conns))
    ∧ (∀ conns1,
         disconnect ws session_id conns = Some conns1 →
         ws ∉ subscribers session_id conns1 →
         disconnect ws session_id conns1 = Some conns1)
    ∧ (∀ conns1,
         disconnect ws session_id conns = Some conns1 →
         NoDup (subscribers session_id conns) →
         ws ∉ subscribers session_id conns1).
Proof.
  intros ws sid conns. split_and!.
  - intros Hnot.
    destruct (disconnect ws sid conns) as [conns'|] eqn:Hd;
      [|by rewrite disconnect_eq in Hd].
    exists conns'. split; [done|].
    assert (Hsubs : ∀ sid', subscribers sid' conns' = subscribers sid' conns).
    { intros sid'. destruct (decide (sid = sid')) as [<-|Hne].
      - rewrite (disconnect_subscribers _ _ _ _ Hd).
        by apply remove_first_notin.
      - unfold subscribers. by rewrite (disconnect_other _ _ _ _ _ Hd Hne). }
    split_and!; [done| |].
    + intros sid'. unfold get_participant_count.
      fold (subscribers sid' conns') (subscribers sid' conns).
      by rewrite Hsubs.
    + intros Hinv. rewrite disconnect_put in Hd by done.
      rewrite remove_first_notin in Hd by done.
      rewrite put_subscribers_same in Hd by done. congruence.
  - intros conns1 Hd Hnot. rewrite disconnect_eq in Hd.
    rewrite disconnect_eq. f_equal.
    destruct (conns1 !! sid) as [l1|] eqn:Hl1; [|done].
    assert (Hs : subscribers sid conns1 = l1)
      by (unfold subscribers; by rewrite Hl1).
    rewrite Hs in Hnot. rewrite remove_first_notin by done.
    unfold put_subscribers. destruct l1 as [|c l1]; [|by apply insert_id].
    exfalso. destruct (conns !! sid) as [l|] eqn:Hl.
    + injection Hd as <-. unfold put_subscribers in Hl1.
      destruct (remove_first ws l).
      * by rewrite lookup_delete_eq in Hl1.
      * by rewrite lookup_insert_eq in Hl1.
    + congruence.
  - intros conns1 Hd Hnd. rewrite (disconnect_subscribers _ _ _ _ Hd).
    induction Hnd as [|c l Hc Hnd IH]; simpl; [by intros ?%elem_of_nil|].
    destruct (decide (ws = c)) as [->|Hne]; [done|].
    intros [?|?]%elem_of_cons; [done|]. by apply IH.
Qed.

(** ** The in-memory repository and the service *)

Lemma memory_create_spec language now (m : Store) :
  let session := Session.mk (fresh_string "session" m) "" language now 0 in
  memory_create language now m = (session, <[Session.id session := session]> m)
  ∧ m !! Session.id session = None.
Proof. split; [done|]. apply fresh_string_fresh. Qed.

Lemma model_copy_update_code s (request : UpdateCodeRequest.t) :
  model_copy s
    (match UpdateCodeRequest.language request with
     | Some l => [set_code (UpdateCodeRequest.code request)] ++ [set_language l]
     | None => [set_code (UpdateCodeRequest.code request)]
     end)
  = Session.mk (Session.id s) (UpdateCodeRequest.code request)
               (default (Session.language s) (UpdateCodeRequest.language request))
               (Session.createdAt s) (Session.participants s).
Proof. by destruct (UpdateCodeRequest.language request). Qed.

Lemma update_code_found sid s (request : UpdateCodeRequest.t) (m : Store) :
  m !! sid = Some s → Session.id s = sid →
  let s' :=
    Session.mk sid (UpdateCodeRequest.code request)
               (default (Session.language s) (UpdateCodeRequest.language request))
               (Session.createdAt s) (Session.participants s) in
  SessionService.update_code sid request m = (Some s', <[sid := s']> m).
Proof.
  intros Hs Hid. simpl. unfold SessionService.update_code. simpl.
  unfold memory_get. rewrite Hs. rewrite model_copy_update_code.
  unfold memory_update. simpl. rewrite Hid, Hs. done.
Qed.

Lemma update_code_missing sid (request : UpdateCodeRequest.t) (m : Store) :
  m !! sid = None → SessionService.update_code sid request m = (None, m).
Proof.
  intros Hs. unfold SessionService.update_code. simpl.
  unfold memory_get. by rewrite Hs.
Qed.

Lemma apply_call_store_inv c (m : Store) :
  store_inv m → store_inv (apply_call c m).
Proof.
  intros Hinv. destruct c as [l now|sid req|sid|sid]; simpl.
  - unfold SessionService.create_session. simpl. unfold memory_create. simpl.
    intros k s [[<- <-]|[_ Hk]]%lookup_insert_Some; [done|by apply Hinv].
  - destruct (m !! sid) as [s|] eqn:Hs.
    + rewrite (update_code_found sid s req m Hs (Hinv _ _ Hs)). simpl.
      intros k s' [[<- <-]|[_ Hk]]%lookup_insert_Some; [done|by apply Hinv].
    + by rewrite update_code_missing.
  - unfold SessionService.add_participant. simpl.
    unfold memory_increment_participants.
    destruct (m !! sid) as [s|] eqn:Hs; [|done]. simpl.
    intros k s' [[<- <-]|[_ Hk]]%lookup_insert_Some; [|by apply Hinv].
    simpl. by apply Hinv.
  - unfold SessionService.remove_participant. simpl.
    unfold memory_decrement_participants.
    destruct (m !! sid) as [s|] eqn:Hs; [|done]. simpl.
    intros k s' [[<- <-]|[_ Hk]]%lookup_insert_Some; [|by apply Hinv].
    simpl. by apply Hinv.
Qed.

Lemma apply_call_counters_nonneg c (m : Store) :
  store_inv m → counters_nonneg m → counters_nonneg (apply_call c m).
Proof.
  intros Hinv Hnn. destruct c as [l now|sid req|sid|sid]; simpl.
  - unfold SessionService.create_session. simpl. unfold memory_create. simpl.
    intros k s [[<- <-]|[_ Hk]]%lookup_insert_Some; [done|by eapply Hnn].
  - destruct (m !! sid) as [s|] eqn:Hs.
    + rewrite (update_code_found sid s req m Hs (Hinv _ _ Hs)). simpl.
      intros k s' [[<- <-]|[_ Hk]]%lookup_insert_Some; [|by eapply Hnn].
      simpl. by eapply Hnn.
    + by rewrite update_code_missing.
  - unfold SessionService.add_participant. simpl.
    unfold memory_increment_participants.
    destruct (m !! sid) as [s|] eqn:Hs; [|done]. simpl.
    intros k s' [[<- <-]|[_ Hk]]%lookup_insert_Some; [|by eapply Hnn].
    simpl. specialize (Hnn _ _ Hs). lia.
  - unfold SessionService.remove_participant. simpl.
    unfold memory_decrement_participants.
    destruct (m !! sid) as [s|] eqn:Hs; [|done]. simpl.
    intros k s' [[<- <-]|[_ Hk]]%lookup_insert_Some; [|by eapply Hnn].
    simpl. lia.
Qed.

Lemma run_calls_invariants calls (m : Store) :
  store_inv m → counters_nonneg m →
  store_inv (run_calls calls m) ∧ counters_nonneg (run_calls calls m).
Proof.
  revert m. induction calls as [|c calls IH]; intros m Hinv Hnn; [done|].
  simpl. apply IH.
  - by apply apply_call_store_inv.
  - by apply apply_call_counters_nonneg.
Qed.

(** C9. [create_session] with a language [L] returns a record with empty
    code, no participants, language [L] and the current clock reading as
    [createdAt]; its id is one no stored record had, the record is stored
    under it, and every other record is untouched. With the language
    omitted the record is a [javascript] one. *)
Theorem create_session_returns_fresh_record :
  ∀ (L : Language) (now : Z) (m : Store),
    let session := (SessionService.create_session (Some L) now m).1 in
    let m' := (SessionService.create_session (Some L) now m).2 in
    Session.code session = ""
    ∧ Session.participants session = 0
    ∧ Session.language session = L
    ∧ Session.createdAt session = now
    ∧ m !! Session.id session = None
    ∧ m' !! Session.id session = Some session
    ∧ (∀ other, other ≠ Session.id session → m' !! other = m !! other)
    ∧ Session.language (SessionService.create_session None now m).1
      = javascript.
Proof.
  intros L now m.
  destruct (memory_create_spec L now m) as [_ Hfresh].
  unfold SessionService.create_session.
  change (create (default javascript (Some L)) now m)
    with (memory_create L now m).
  change (create (default javascript None) now m)
    with (memory_create javascript now m).
  unfold memory_create. cbn [fst snd]. cbn zeta.
  cbn [Session.id Session.code Session.language Session.createdAt
       Session.participants].
  split_and!; try done.
  - by rewrite lookup_insert_eq.
  - intros other Hne. by rewrite lookup_insert_ne.
Qed.

(** C4. [update_code] on a stored session replaces the code, replaces the
    language exactly when the request carries one, and keeps the id, the
    creation time and the participant count; the record it returns is the
    one now stored, and no other record changes. *)
Theorem update_code_merges_request :
  ∀ (m : Store) (session_id : string) (s : Session.t)
    (c : string) (l : option Language),
    m !! session_id = Some s →
    Session.id s = session_id →
    ∃ s' m',
      SessionService.update_code session_id (UpdateCodeRequest.mk c l) m
      = (Some s', m')
      ∧ m' !! session_id = Some s'
      ∧ Session.code s' = c
      ∧ Session.language s'
        = match l with Some l' => l' | None => Session.language s end
      ∧ Session.id s' = Session.id s
      ∧ Session.createdAt s' = Session.createdAt s
      ∧ Session.participants s' = Session.participants s
      ∧ (∀ other, other ≠ session_id → m' !! other = m !! other).
Proof.
  intros m sid s c l Hs Hid.
  rewrite (update_code_found sid s (UpdateCodeRequest.mk c l) m Hs Hid).
  simpl. eexists _, _. split; [done|]. simpl.
  split_and!; try done.
  - by rewrite lookup_insert_eq.
  - intros other Hne. by rewrite lookup_insert_ne.
Qed.

(** C8. [update_code] for an id with no stored session: the service returns
    [None] and the store it was given; the route answers 404 and leaves the
    whole application as it was -- no record is created, no background
    broadcast is added, nothing is written to any socket. *)
Theorem update_code_unknown_id_is_not_found :
  ∀ (a : App) (session_id : string) (request : UpdateCodeRequest.t),
    memory_repository a !! session_id = None →
    SessionService.update_code session_id request (memory_repository a)
    = (None, memory_repository a)
    ∧ sessions.update_code session_id request a = (inl HTTP_404_NOT_FOUND, a)
    ∧ apply_event (ev_put_code session_id request) a = Some a.
Proof.
  intros a sid req Hs.
  assert (Hr : sessions.update_code sid req a = (inl HTTP_404_NOT_FOUND, a)).
  { unfold sessions.update_code. rewrite update_code_missing by done.
    by destruct a. }
  split_and!; [by apply update_code_missing|done|].
  simpl. by rewrite Hr.
Qed.

(** C3. Whatever calls the service has served since the repository was
    empty, every stored participant count is at least zero, also after any
    number of further decrements; a decrement returns a count of at least
    zero from any repository, and on a stored count [p] it stores and
    returns [max 0 (p - 1)]. *)
Theorem participants_never_negative :
  ∀ (calls : list ServiceCall),
    counters_nonneg (run_calls calls ∅)
    ∧ (∀ (m : Store) (session_id : string) (s : Session.t),
         (SessionService.remove_participant session_id m).1 = Some s →
         0 ≤ Session.participants s)
    ∧ (∀ (m : Store) (session_id : string) (s0 : Session.t),
         m !! session_id = Some s0 →
         ∃ s,
           (SessionService.remove_participant session_id m).1 = Some s
           ∧ (SessionService.remove_participant session_id m).2 !! session_id
             = Some s
           ∧ Session.participants s = Z.max 0 (Session.participants s0 - 1))
    ∧ (∀ (n : nat) (session_id : string),
         counters_nonneg
           (run_calls (calls ++ replicate n (call_remove_participant session_id))
                      ∅)).
Proof.
  intros calls.
  assert (Hempty : store_inv ∅ ∧ counters_nonneg ∅).
  { split; intros sid s; by rewrite lookup_empty. }
  destruct Hempty as [Hi Hn]. split_and!.
  - by apply run_calls_invariants.
  - intros m sid s. unfold SessionService.remove_participant. simpl.
    unfold memory_decrement_participants.
    destruct (m !! sid) as [s0|]; [|done]. simpl. intros [= <-]. simpl. lia.
  - intros m sid s0 Hs. unfold SessionService.remove_participant. simpl.
    unfold memory_decrement_participants. rewrite Hs. simpl.
    eexists. split; [done|]. split; [apply lookup_insert_eq|done].
  - intros n sid. by apply run_calls_invariants.
Qed.

Lemma run_counter_step sid c calls (m : Store) :
  run_counter sid (c :: calls) m = run_counter sid calls (apply_counter sid c m).
Proof. done. Qed.

Lemma run_counter_final sid calls (m : Store) s :
  m !! sid = Some s → 0 ≤ Session.participants s →
  ∃ s',
    run_counter sid calls m !! sid = Some s'
    ∧ Session.participants s'
      = Session.participants s + increments calls - decrements calls
        + clamped (Session.participants s) calls.
Proof.
  revert m s. induction calls as [|c calls IH]; intros m s Hs Hp.
  - exists s. split; [done|]. simpl. lia.
  - rewrite run_counter_step. destruct c; simpl.
    + unfold SessionService.add_participant. simpl.
      unfold memory_increment_participants. rewrite Hs. simpl.
      edestruct (IH (<[sid := set_participants (Session.participants s + 1) s]> m))
        as (s' & Hrun & Hcount);
        [apply lookup_insert_eq|simpl; lia|].
      exists s'. split; [done|]. rewrite Hcount. simpl. lia.
    + unfold SessionService.remove_participant. simpl.
      unfold memory_decrement_participants. rewrite Hs. simpl.
      edestruct (IH (<[sid := set_participants
                                (Z.max 0 (Session.participants s - 1)) s]> m))
        as (s' & Hrun & Hcount);
        [apply lookup_insert_eq|simpl; lia|].
      exists s'. split; [done|]. rewrite Hcount. simpl.
      destruct (decide (Session.participants s ≤ 0)).
      * replace (Z.max 0 (Session.participants s - 1)) with 0 by lia. lia.
      * replace (Z.max 0 (Session.participants s - 1))
          with (Session.participants s - 1) by lia. lia.
Qed.

Lemma clamped_nonneg p calls : 0 ≤ clamped p calls.
Proof.
  revert p. induction calls as [|c calls IH]; intros p; simpl; [done|].
  destruct c; [apply IH|]. case_decide; [specialize (IH 0); lia|apply IH].
Qed.

Lemma clamped_zero p calls :
  0 ≤ p →
  (∀ k : nat, decrements (take k calls) ≤ p + increments (take k calls)) →
  clamped p calls = 0.
Proof.
  revert p. induction calls as [|c calls IH]; intros p Hp Hpre; simpl; [done|].
  destruct c.
  - apply IH; [lia|]. intros k. specialize (Hpre (S k)). simpl in Hpre. lia.
  - pose proof (Hpre 1%nat) as H1. simpl in H1.
    destruct calls; simpl in H1; rewrite decide_False by lia.
    all: apply IH; [lia|]; intros k; specialize (Hpre (S k));
      simpl in Hpre; lia.
Qed.

(** C2, as the atomic counter steps have it. Served one at a time in any
    order, [N] increments and [M] decrements take a counter from [p] to
    [p + N - M] plus the number of decrements that found it at zero: no
    increment is lost, and a decrement is without effect only when it is
    clamped. When at every point of the interleaving the decrements served
    so far do not exceed [p] plus the increments served so far, none is
    clamped and the final count is [p + N - M]. *)
Theorem counter_interleaving_final_count :
  ∀ (session_id : string) (calls : list CounterCall) (m : Store)
    (s : Session.t),
    m !! session_id = Some s →
    0 ≤ Session.participants s →
    ∃ s',
      run_counter session_id calls m !! session_id = Some s'
      ∧ Session.participants s'
        = Session.participants s + increments calls - decrements calls
          + clamped (Session.participants s) calls
      ∧ Session.participants s + increments calls - decrements calls
        ≤ Session.participants s'
      ∧ ((∀ k : nat, decrements (take k calls)
                     ≤ Session.participants s + increments (take k calls)) →
         Session.participants s'
         = Session.participants s + increments calls - decrements calls).
Proof.
  intros sid calls m s Hs Hp.
  destruct (run_counter_final sid calls m s Hs Hp) as (s' & Hrun & Hcount).
  exists s'. split_and!; [done|done| |].
  - pose proof (clamped_nonneg (Session.participants s) calls). lia.
  - intros Hpre. rewrite Hcount, clamped_zero by done. lia.
Qed.

(** ** The application *)

Lemma broadcast_all_healthy sid msg (conns : Registry) t :
  (∀ ws, ws ∈ subscribers sid conns → healthy t ws) →
  broadcast sid msg conns t
  = Some (conns,
          mkTransport (delivered t ++ frames msg (subscribers sid conns))
                      (broken t)).
Proof.
  intros Hall.
  destruct (broadcast_spec sid msg conns t) as (conns' & Hrun & _ & _ & _ & Heq).
  rewrite Hrun, (Heq Hall). by rewrite filter_keeps_all.
Qed.

Lemma no_transport_lost_healthy a ws :
  no_transport_lost a → healthy (sockets a) ws.
Proof. unfold no_transport_lost, healthy. intros ->. set_solver. Qed.

Lemma get_participant_count_subscribers sid (conns : Registry) :
  get_participant_count sid conns = length (subscribers sid conns).
Proof. done. Qed.

Lemma subscribers_insert sid l (conns : Registry) :
  subscribers sid (<[sid := l]> conns) = l.
Proof. unfold subscribers. by rewrite lookup_insert_eq. Qed.



(** The endpoint up to its [participant_joined] broadcast, when the session
    exists and no transport is lost. *)
Lemma websocket_endpoint_open_healthy ws sid s a :
  no_transport_lost a →
  memory_repository a !! sid = Some s →
  let l := subscribers sid (connection_manager a) ++ [ws] in
  let count := Session.participants s + 1 in
  websocket_endpoint_open ws sid a
  = Some (mkApp (<[sid := l]> (connection_manager a))
                (mkTransport
                   (delivered (sockets a)
                    ++ frames (participant_event participant_joined sid count
                                                 (clock a)) l)
                   (broken (sockets a)))
                (<[sid := set_participants count s]> (memory_repository a))
                (background a) (clock a)).
Proof.
  intros Hh Hs l count. unfold websocket_endpoint_open.
  unfold SessionService.get_session, SessionService.add_participant. simpl.
  unfold memory_get. rewrite Hs. rewrite connect_eq.
  rewrite decide_True by by apply no_transport_lost_healthy. simpl.
  unfold memory_increment_participants. rewrite Hs. simpl.
  rewrite lookup_insert_eq. simpl.
  unfold broadcast_participant_joined.
  rewrite broadcast_all_healthy
    by (intros; by apply no_transport_lost_healthy).
  simpl. by rewrite subscribers_insert.
Qed.


(** The [finally] block of the endpoint, when the session exists, the
    registry holds no empty list and no transport is lost. *)
Lemma websocket_endpoint_close_healthy ws sid s a :
  no_transport_lost a →
  registry_inv (connection_manager a) →
  memory_repository a !! sid = Some s →
  let l := remove_first ws (subscribers sid (connection_manager a)) in
  let count := Z.max 0 (Session.participants s - 1) in
  websocket_endpoint_close ws sid a
  = Some (mkApp (put_subscribers sid l (connection_manager a))
                (mkTransport
                   (delivered (sockets a)
                    ++ frames (participant_event participant_left sid count
                                                 (clock a)) l)
                   (broken (sockets a)))
                (<[sid := set_participants count s]> (memory_repository a))
                (background a) (clock a)).
Proof.
  intros Hh Hinv Hs l count. unfold websocket_endpoint_close.
  rewrite disconnect_put by done. simpl.
  unfold SessionService.get_session, SessionService.remove_participant. simpl.
  unfold memory_decrement_participants, memory_get. rewrite Hs. simpl.
  rewrite lookup_insert_eq. simpl.
  unfold broadcast_participant_left.
  rewrite broadcast_all_healthy
    by (intros; by apply no_transport_lost_healthy).
  simpl. by rewrite put_subscribers_lookup.
Qed.



Lemma create_session_app request a :
  let language :=
    match request with
    | Some r => CreateSessionRequest.language r
    | None => javascript
    end in
  let session_id := fresh_string "session" (memory_repository a) in
  let session := Session.mk session_id "" language (clock a) 0 in
  sessions.create_session request a
  = (session,
     mkApp (connection_manager a) (sockets a)
           (<[session_id := session]> (memory_repository a))
           (background a) (clock a)).
Proof. done. Qed.

Lemma update_code_app sid request a :
  sessions.update_code sid request a
  = match memory_repository a !! sid with
    | Some s =>
        match memory_repository a !! Session.id s with
        | Some _ =>
            (inr (merge_request s request),
             mkApp (connection_manager a) (sockets a)
                   (<[Session.id s := merge_request s request]>
                      (memory_repository a))
                   (background a
                    ++ [task_broadcast_code_update sid
                          (UpdateCodeRequest.code request)
                          (default (Session.language s)
                                   (UpdateCodeRequest.language request))])
                   (clock a))
        | None => (inl HTTP_404_NOT_FOUND, a)
        end
    | None => (inl HTTP_404_NOT_FOUND, a)
    end.
Proof.
  unfold sessions.update_code, SessionService.update_code. simpl.
  unfold memory_get. destruct (memory_repository a !! sid) as [s|] eqn:Hs.
  - rewrite model_copy_update_code. unfold memory_update. simpl.
    destruct (memory_repository a !! Session.id s); [done|by destruct a].
  - by destruct a.
Qed.

Lemma run_background_task_healthy task a :
  no_transport_lost a →
  ∃ frames_written,
    run_background_task task a
    = Some (mkApp (connection_manager a)
                  (mkTransport (delivered (sockets a) ++ frames_written)
                               (broken (sockets a)))
                  (memory_repository a) (background a) (clock a)).
Proof.
  intros Hh. unfold run_background_task.
  destruct task as [sid c l|sid r];
    unfold broadcast_code_update, broadcast_execution_result;
    rewrite broadcast_all_healthy
      by (intros; by apply no_transport_lost_healthy);
    simpl; by eexists.
Qed.






Lemma run_events_app evs1 evs2 a :
  run_events (evs1 ++ evs2) a = run_events evs1 a ≫= run_events evs2.
Proof.
  revert a. induction evs1 as [|ev evs1 IH]; intros a; simpl; [done|].
  destruct (apply_event ev a) as [a1|]; simpl; [apply IH|done].
Qed.

Lemma observed_frames ws msg l d b :
  observed ws (mkTransport (d ++ frames msg l) b)
  = observed ws (mkTransport d b) ++ replicate (occurrences ws l) msg.
Proof.
  unfold observed, occurrences, frames. simpl.
  rewrite filter_app, fmap_app. f_equal.
  induction l as [|c l IH]; [done|].
  rewrite fmap_cons. rewrite !filter_cons. simpl.
  destruct (decide (c = ws)); simpl; [f_equal|]; exact IH.
Qed.

(** One code edit handled to its end: the route stores the merged record
    and adds its broadcast, which then runs before anything else happens. *)
Lemma put_code_then_broadcast sid s request a :
  memory_repository a !! sid = Some s →
  Session.id s = sid →
  let receivers :=
    filter (healthy (sockets a)) (subscribers sid (connection_manager a)) in
  ∃ conns',
    run_events [ev_put_code sid request; ev_background (length (background a))]
               a
    = Some (mkApp conns'
              (mkTransport
                 (delivered (sockets a)
                  ++ frames (code_update_event (merge_request s request)
                                               (clock a)) receivers)
                 (broken (sockets a)))
              (<[sid := merge_request s request]> (memory_repository a))
              (background a) (clock a))
    ∧ subscribers sid conns' = receivers.
Proof.
  intros Hs Hid receivers. unfold run_events, apply_event.
  rewrite update_code_app, Hs, Hid, Hs. simpl.
  rewrite list_lookup_middle by done. simpl.
  unfold run_background_task, broadcast_code_update.
  destruct (broadcast_spec sid
              (SessionUpdate.mk code_update sid
                 (Some (UpdateCodeRequest.code request))
                 (Some (default (Session.language s)
                                (UpdateCodeRequest.language request)))
                 None None (clock a))
              (connection_manager a) (sockets a))
    as (conns' & Hrun & Hsub & _).
  simpl. rewrite Hrun. simpl. exists conns'. split; [|done].
  rewrite <- (app_nil_r (background a ++ _)), <- app_assoc. simpl.
  rewrite delete_middle, app_nil_r.
  unfold code_update_event, merge_request. simpl. by rewrite Hid.
Qed.


Lemma broadcast_inv sid msg (conns conns' : Registry) t t' :
  registry_inv conns → broadcast sid msg conns t = Some (conns', t') →
  registry_inv conns'.
Proof.
  intros Hinv Hb.
  destruct (broadcast_spec sid msg conns t) as (c & Hrun & _ & _ & Hc & _).
  rewrite Hrun in Hb. injection Hb as <- <-. by apply Hc.
Qed.

Lemma apply_event_registry_inv ev a a' :
  registry_inv (connection_manager a) → apply_event ev a = Some a' →
  registry_inv (connection_manager a').
Proof.
  intros Hinv Hev.
  destruct ev as [req|sid req|i|ws sid|ws sid|ws|]; unfold apply_event in Hev.
  - rewrite create_session_app in Hev. by injection Hev as <-.
  - rewrite update_code_app in Hev.
    destruct (memory_repository a !! sid) as [s|];
      [destruct (memory_repository a !! Session.id s)|];
      by injection Hev as <-.
  - destruct (background a !! i) as [task|]; [|done]. simpl in Hev.
    unfold run_background_task in Hev.
    destruct task as [sid c l|sid r];
      unfold broadcast_code_update, broadcast_execution_result in Hev.
    all: match type of Hev with
         | context [broadcast ?s ?m ?c ?t] =>
             destruct (broadcast s m c t) as [[c1 t1]|] eqn:Hb
         end; [|done].
    all: simpl in Hev; injection Hev as <-; simpl; by eapply broadcast_inv.
  - unfold websocket_endpoint_open in Hev.
    destruct (SessionService.get_session sid (memory_repository a));
      [|by injection Hev as <-].
    destruct (connect ws sid (connection_manager a) (sockets a))
      as [[c1 t1]|] eqn:Hc; [|done].
    simpl in Hev.
    destruct (memory_increment_participants sid (memory_repository a))
      as [o repo].
    unfold broadcast_participant_joined in Hev. cbv beta iota zeta in Hev.
    match type of Hev with
    | context [broadcast ?s ?m ?c ?t] =>
        destruct (broadcast s m c t) as [[c2 t2]|] eqn:Hb
    end; [|done].
    simpl in Hev. injection Hev as <-. simpl.
    eapply broadcast_inv; [|exact Hb]. by eapply connect_inv.
  - unfold websocket_endpoint_close in Hev.
    destruct (disconnect ws sid (connection_manager a)) as [c1|] eqn:Hd;
      [|done].
    simpl in Hev.
    destruct (memory_decrement_participants sid (memory_repository a))
      as [o repo].
    unfold broadcast_participant_left in Hev. cbv beta iota zeta in Hev.
    match type of Hev with
    | context [broadcast ?s ?m ?c ?t] =>
        destruct (broadcast s m c t) as [[c2 t2]|] eqn:Hb
    end; [|done].
    simpl in Hev. injection Hev as <-. simpl.
    eapply broadcast_inv; [|exact Hb]. by eapply disconnect_inv.
  - by injection Hev as <-.
  - by injection Hev as <-.
Qed.

Lemma run_events_registry_inv evs a a' :
  registry_inv (connection_manager a) → run_events evs a = Some a' →
  registry_inv (connection_manager a').
Proof.
  revert a. induction evs as [|ev evs IH]; intros a Hinv; simpl.
  - by intros [= <-].
  - destruct (apply_event ev a) as [a1|] eqn:Hev; [|done]. simpl.
    apply IH. by eapply apply_event_registry_inv.
Qed.

(** C10. The registry never maps a session id to an empty list: the empty
    registry does not, [connect], [disconnect] and [broadcast] keep it so
    (a [disconnect] that leaves a session without sockets leaves it without
    an entry), and so it is in every state the application reaches,
    whatever happens to the transports. A session without registered
    sockets therefore has no entry, and [get_participant_count] is 0 for
    every id without an entry. *)
Theorem registry_holds_no_empty_list :
  registry_inv ∅
  ∧ (∀ ws sid (conns conns' : Registry) t t',
       registry_inv conns → connect ws sid conns t = Some (conns', t') →
       registry_inv conns')
  ∧ (∀ ws sid (conns conns' : Registry),
       registry_inv conns → disconnect ws sid conns = Some conns' →
       registry_inv conns')
  ∧ (∀ sid msg (conns conns' : Registry) t t',
       registry_inv conns → broadcast sid msg conns t = Some (conns', t') →
       registry_inv conns')
  ∧ (∀ ws sid (conns conns' : Registry),
       disconnect ws sid conns = Some conns' →
       is_Some (conns !! sid) →
       subscribers sid conns' = [] → conns' !! sid = None)
  ∧ (∀ evs a,
       run_events evs empty_app = Some a →
       registry_inv (connection_manager a))
  ∧ (∀ sid (conns : Registry),
       registry_inv conns →
       (get_participant_count sid conns = 0%nat ↔ conns !! sid = None))
  ∧ (∀ sid (conns : Registry),
       conns !! sid = None → get_participant_count sid conns = 0%nat).
Proof.
  split_and!.
  - apply registry_inv_empty.
  - intros. by eapply connect_inv.
  - intros. by eapply disconnect_inv.
  - intros. by eapply broadcast_inv.
  - intros ws sid conns conns' Hd [l Hl] Hnil.
    rewrite disconnect_eq, Hl in Hd. injection Hd as <-.
    rewrite put_subscribers_lookup in Hnil. rewrite Hnil. simpl.
    apply lookup_delete_eq.
  - intros evs a Hrun. eapply run_events_registry_inv; [|exact Hrun].
    apply registry_inv_empty.
  - intros sid conns Hinv. rewrite get_participant_count_subscribers.
    rewrite <- (subscribers_nil_iff sid conns Hinv).
    destruct (subscribers sid conns); simpl; split; done.
  - intros sid conns Hs. unfold get_participant_count. by rewrite Hs.
Qed.

(** What a socket has observed only grows. *)
Lemma observed_extend ws t t' written :
  delivered t' = delivered t ++ written →
  observed ws t' = observed ws t ++ (filter (λ p, p.1 = ws) written).*2.
Proof.
  intros Hd. unfold observed. by rewrite Hd, filter_app, fmap_app.
Qed.

Lemma broadcast_appends sid msg (conns conns' : Registry) t t' :
  broadcast sid msg conns t = Some (conns', t') →
  ∃ written, delivered t' = delivered t ++ written.
Proof.
  intros Hb. destruct (broadcast_spec sid msg conns t) as (c & Hrun & _).
  rewrite Hrun in Hb. injection Hb as _ <-. by eexists.
Qed.

Lemma apply_event_appends ev a a' :
  apply_event ev a = Some a' →
  ∃ written, delivered (sockets a') = delivered (sockets a) ++ written.
Proof.
  intros Hev.
  destruct ev as [req|sid req|i|ws sid|ws sid|ws|]; unfold apply_event in Hev.
  - rewrite create_session_app in Hev. injection Hev as <-.
    exists []. by rewrite app_nil_r.
  - rewrite update_code_app in Hev.
    destruct (memory_repository a !! sid) as [s|];
      [destruct (memory_repository a !! Session.id s)|];
      injection Hev as <-; exists []; by rewrite app_nil_r.
  - destruct (background a !! i) as [task|]; [|done]. simpl in Hev.
    unfold run_background_task in Hev.
    destruct task as [sid c l|sid r];
      unfold broadcast_code_update, broadcast_execution_result in Hev.
    all: match type of Hev with
         | context [broadcast ?s ?m ?c ?t] =>
             destruct (broadcast s m c t) as [[c1 t1]|] eqn:Hb
         end; [|done].
    all: simpl in Hev; injection Hev as <-; simpl;
      by eapply broadcast_appends.
  - unfold websocket_endpoint_open in Hev.
    destruct (SessionService.get_session sid (memory_repository a));
      [|injection Hev as <-; exists []; by rewrite app_nil_r].
    rewrite connect_eq in Hev.
    destruct (decide (healthy (sockets a) ws)); [|done].
    cbn [mbind option_bind] in Hev.
    destruct (SessionService.add_participant sid (memory_repository a))
      as [o repo].
    unfold broadcast_participant_joined in Hev. cbv beta iota zeta in Hev.
    match type of Hev with
    | context [broadcast ?s ?m ?c ?t] =>
        destruct (broadcast s m c t) as [[c2 t2]|] eqn:Hb
    end; [|done].
    simpl in Hev. injection Hev as <-. simpl. by eapply broadcast_appends.
  - unfold websocket_endpoint_close in Hev.
    destruct (disconnect ws sid (connection_manager a)) as [c1|]; [|done].
    cbn [mbind option_bind] in Hev.
    destruct (SessionService.remove_participant sid (memory_repository a))
      as [o repo].
    unfold broadcast_participant_left in Hev. cbv beta iota zeta in Hev.
    match type of Hev with
    | context [broadcast ?s ?m ?c ?t] =>
        destruct (broadcast s m c t) as [[c2 t2]|] eqn:Hb
    end; [|done].
    simpl in Hev. injection Hev as <-. simpl. by eapply broadcast_appends.
  - injection Hev as <-. exists []. simpl. by rewrite app_nil_r.
  - injection Hev as <-. exists []. simpl. by rewrite app_nil_r.
Qed.

Lemma run_events_appends evs a a' :
  run_events evs a = Some a' →
  ∃ written, delivered (sockets a') = delivered (sockets a) ++ written.
Proof.
  revert a. induction evs as [|ev evs IH]; intros a; simpl.
  - intros [= <-]. exists []. by rewrite app_nil_r.
  - destruct (apply_event ev a) as [a1|] eqn:Hev; [|done]. simpl.
    intros Hrun. destruct (apply_event_appends _ _ _ Hev) as [w1 Hw1].
    destruct (IH _ Hrun) as [w2 Hw2]. exists (w1 ++ w2).
    by rewrite Hw2, Hw1, app_assoc.
Qed.

Lemma run_events_app_Some evs1 evs2 a a1 :
  run_events evs1 a = Some a1 →
  run_events (evs1 ++ evs2) a = run_events evs2 a1.
Proof. intros Hrun. by rewrite run_events_app, Hrun. Qed.

Lemma run_events_cons ev evs a a1 :
  apply_event ev a = Some a1 → run_events (ev :: evs) a = run_events evs a1.
Proof. intros Hev. simpl. by rewrite Hev. Qed.

(** [PUT /sessions/{id}/code] on a stored record. *)
Lemma put_code_app sid s request a :
  memory_repository a !! sid = Some s →
  Session.id s = sid →
  apply_event (ev_put_code sid request) a
  = Some (mkApp (connection_manager a) (sockets a)
                (<[sid := merge_request s request]> (memory_repository a))
                (background a ++ [code_update_task sid s request])
                (clock a)).
Proof.
  intros Hs Hid. unfold apply_event.
  by rewrite update_code_app, Hs, Hid, Hs.
Qed.

(** The background task of a code edit, run as one step. *)
Lemma code_update_task_app i sid code language a :
  background a !! i = Some (task_broadcast_code_update sid code language) →
  let receivers :=
    filter (healthy (sockets a)) (subscribers sid (connection_manager a)) in
  ∃ conns',
    apply_event (ev_background i) a
    = Some (mkApp conns'
              (mkTransport
                 (delivered (sockets a)
                  ++ frames (code_update_message sid code language (clock a))
                            receivers)
                 (broken (sockets a)))
              (memory_repository a) (delete i (background a)) (clock a))
    ∧ subscribers sid conns' = receivers.
Proof.
  intros Hi receivers. unfold apply_event. rewrite Hi. simpl.
  unfold run_background_task, broadcast_code_update.
  destruct (broadcast_spec sid
              (code_update_message sid code language (clock a))
              (connection_manager a) (sockets a))
    as (conns' & Hrun & Hsub & _).
  unfold code_update_message in Hrun |- *. rewrite Hrun. simpl.
  by exists conns'.
Qed.

Lemma filter_healthy_idem t d (l : list WebSocket) :
  filter (healthy (mkTransport d (broken t))) (filter (healthy t) l)
  = filter (healthy t) l.
Proof. apply filter_keeps_all. by intros x [Hx _]%list_elem_of_filter. Qed.

Lemma observed_frames_plain ws msg l t :
  observed ws (mkTransport (delivered t ++ frames msg l) (broken t))
  = observed ws t ++ replicate (occurrences ws l) msg.
Proof. by rewrite observed_frames. Qed.

(** Two code edits of a stored record, both made before either of their
    broadcasts runs: the state the broadcasts start from. *)
Lemma two_edits_pending sid s r1 r2 a :
  memory_repository a !! sid = Some s →
  Session.id s = sid →
  run_events [ev_put_code sid r1; ev_put_code sid r2] a
  = Some (mkApp (connection_manager a) (sockets a)
                (<[sid := merge_request (merge_request s r1) r2]>
                   (memory_repository a))
                (background a
                 ++ [code_update_task sid s r1;
                     code_update_task sid (merge_request s r1) r2])
                (clock a)).
Proof.
  intros Hs Hid.
  rewrite (run_events_cons _ _ _ _ (put_code_app sid s r1 a Hs Hid)).
  erewrite run_events_cons;
    [|apply (put_code_app sid (merge_request s r1) r2);
      [apply lookup_insert_eq|done]].
  simpl. by rewrite insert_insert_eq, <- app_assoc.
Qed.

(** The event of a queued code edit, as its broadcast builds it. *)
Lemma code_update_task_message sid s request now :
  Session.id s = sid →
  code_update_message sid (UpdateCodeRequest.code request)
    (default (Session.language s) (UpdateCodeRequest.language request)) now
  = code_update_event (merge_request s request) now.
Proof. intros <-. done. Qed.

(** Two pending code-update broadcasts for one session, run one after the
    other from a state in which the first is the i-th pending task and the
    second becomes the j-th. *)
Lemma two_code_update_tasks i j sid c1 l1 c2 l2 a :
  background a !! i = Some (task_broadcast_code_update sid c1 l1) →
  delete i (background a) !! j
  = Some (task_broadcast_code_update sid c2 l2) →
  let receivers :=
    filter (healthy (sockets a)) (subscribers sid (connection_manager a)) in
  ∃ conns',
    run_events [ev_background i; ev_background j] a
    = Some (mkApp conns'
              (mkTransport
                 ((delivered (sockets a)
                   ++ frames (code_update_message sid c1 l1 (clock a))
                             receivers)
                  ++ frames (code_update_message sid c2 l2 (clock a))
                            receivers)
                 (broken (sockets a)))
              (memory_repository a)
              (delete j (delete i (background a))) (clock a)).
Proof.
  intros Hi Hj receivers.
  destruct (code_update_task_app i sid c1 l1 a Hi) as (conns1 & Hrun1 & Hsub1).
  rewrite (run_events_cons _ _ _ _ Hrun1).
  match goal with
  | |- context [run_events _ ?a1] =>
      destruct (code_update_task_app j sid c2 l2 a1 Hj)
        as (conns2 & Hrun2 & Hsub2)
  end.
  rewrite (run_events_cons _ _ _ _ Hrun2). simpl.
  rewrite Hsub1. unfold receivers. rewrite filter_healthy_idem.
  by exists conns2.
Qed.

(** C1, as the code has it. The connection manager does not serialize
    broadcasts, and the event of a code edit is broadcast by a background
    task that runs after the response of its request: nothing makes the
    tasks of two requests run in the order of the requests. What holds is
    an order between broadcasts, each taken as one step (no other handler
    runs during its sends). Of two code-update broadcasts for one session,
    the one that runs first is observed first: whatever else the
    application does in between, every socket has observed what it had
    before, then the event of the first broadcast once for each of its
    registrations for the session whose send succeeds, then what it is sent
    in between, then the event of the second broadcast likewise. So for
    two edits E1 and then E2 of a stored record: when each is broadcast
    before the next is made, or both are made and their broadcasts run in
    the order the edits were made, every socket observes E1 and then E2;
    when the two broadcasts run in the other order, every socket observes
    E2 and then E1. In all three runs the store ends with the record of
    E2. *)
Theorem code_updates_observed_in_broadcast_order :
  (∀ (a a1 a2 : App) (i j : nat) (evs : list Event) (session_id : string)
     (code1 code2 : string) (language1 language2 : Language),
     background a !! i
     = Some (task_broadcast_code_update session_id code1 language1) →
     apply_event (ev_background i) a = Some a1 →
     run_events evs a1 = Some a2 →
     background a2 !! j
     = Some (task_broadcast_code_update session_id code2 language2) →
     ∃ a3,
       apply_event (ev_background j) a2 = Some a3
       ∧ ∀ ws, ∃ between,
           observed ws (sockets a2) = observed ws (sockets a1) ++ between
           ∧ observed ws (sockets a3)
             = observed ws (sockets a)
               ++ replicate
                    (occurrences ws
                       (filter (healthy (sockets a))
                          (subscribers session_id (connection_manager a))))
                    (code_update_message session_id code1 language1 (clock a))
               ++ between
               ++ replicate
                    (occurrences ws
                       (filter (healthy (sockets a2))
                          (subscribers session_id (connection_manager a2))))
                    (code_update_message session_id code2 language2
                                         (clock a2)))
  ∧ (∀ (a : App) (session_id : string) (s : Session.t)
       (r1 r2 : UpdateCodeRequest.t),
       memory_repository a !! session_id = Some s →
       Session.id s = session_id →
       let n := length (background a) in
       let E1 := code_update_event (merge_request s r1) (clock a) in
       let E2 :=
         code_update_event (merge_request (merge_request s r1) r2) (clock a) in
       let k ws :=
         occurrences ws
           (filter (healthy (sockets a))
                   (subscribers session_id (connection_manager a))) in
       (∃ a',
          run_events [ev_put_code session_id r1; ev_background n;
                      ev_put_code session_id r2; ev_background n] a
          = Some a'
          ∧ memory_repository a' !! session_id
            = Some (merge_request (merge_request s r1) r2)
          ∧ ∀ ws,
              observed ws (sockets a')
              = observed ws (sockets a)
                ++ replicate (k ws) E1 ++ replicate (k ws) E2)
       ∧ (∃ a',
            run_events [ev_put_code session_id r1; ev_put_code session_id r2;
                        ev_background n; ev_background n] a
            = Some a'
            ∧ memory_repository a' !! session_id
              = Some (merge_request (merge_request s r1) r2)
            ∧ ∀ ws,
                observed ws (sockets a')
                = observed ws (sockets a)
                  ++ replicate (k ws) E1 ++ replicate (k ws) E2)
       ∧ (∃ a',
            run_events [ev_put_code session_id r1; ev_put_code session_id r2;
                        ev_background (S n); ev_background n] a
            = Some a'
            ∧ memory_repository a' !! session_id
              = Some (merge_request (merge_request s r1) r2)
            ∧ ∀ ws,
                observed ws (sockets a')
                = observed ws (sockets a)
                  ++ replicate (k ws) E2 ++ replicate (k ws) E1)).
Proof.
  split.
  - intros a a1 a2 i j evs sid c1 c2 l1 l2 Hi Hev1 Hrun Hj.
    destruct (code_update_task_app i sid c1 l1 a Hi) as (conns1 & Hrun1 & _).
    rewrite Hrun1 in Hev1. injection Hev1 as <-.
    destruct (run_events_appends _ _ _ Hrun) as [written Hwritten].
    destruct (code_update_task_app j sid c2 l2 a2 Hj) as (conns3 & Hrun3 & _).
    eexists. split; [exact Hrun3|]. intros ws.
    exists (filter (λ p, p.1 = ws) written).*2. split.
    + by apply observed_extend.
    + simpl sockets. rewrite observed_frames_plain.
      rewrite (observed_extend ws _ _ _ Hwritten).
      simpl sockets. rewrite observed_frames_plain.
      by rewrite <- !app_assoc.
  - intros a sid s r1 r2 Hs Hid n E1 E2 k.
    assert (Hm1 : code_update_message sid (UpdateCodeRequest.code r1)
                    (default (Session.language s)
                             (UpdateCodeRequest.language r1)) (clock a)
                  = E1) by by apply code_update_task_message.
    assert (Hm2 : code_update_message sid (UpdateCodeRequest.code r2)
                    (default (Session.language (merge_request s r1))
                             (UpdateCodeRequest.language r2)) (clock a)
                  = E2) by by apply code_update_task_message.
    split_and!.
    + destruct (put_code_then_broadcast sid s r1 a Hs Hid)
        as (c1 & Hrun1 & Hsub1).
      match type of Hrun1 with
      | _ = Some ?a1 =>
          destruct (put_code_then_broadcast sid (merge_request s r1) r2 a1)
            as (c2 & Hrun2 & Hsub2);
            [simpl; apply lookup_insert_eq|done|]
      end.
      cbn [sockets connection_manager clock background memory_repository
           delivered broken] in Hrun2.
      rewrite Hsub1, filter_healthy_idem in Hrun2.
      eexists. split_and!.
      * change [ev_put_code sid r1; ev_background n; ev_put_code sid r2;
                ev_background n]
          with ([ev_put_code sid r1; ev_background n]
                ++ [ev_put_code sid r2; ev_background n]).
        subst n. rewrite (run_events_app_Some _ _ _ _ Hrun1).
        exact Hrun2.
      * simpl. apply lookup_insert_eq.
      * intros ws. simpl sockets.
        rewrite observed_frames, observed_frames_plain.
        by rewrite <- app_assoc.
    + change [ev_put_code sid r1; ev_put_code sid r2; ev_background n;
              ev_background n]
        with ([ev_put_code sid r1; ev_put_code sid r2]
              ++ [ev_background n; ev_background n]).
      rewrite (run_events_app_Some _ _ _ _
                 (two_edits_pending sid s r1 r2 a Hs Hid)).
      match goal with
      | |- context [run_events _ ?a2] =>
          destruct (two_code_update_tasks n n sid
                      (UpdateCodeRequest.code r1)
                      (default (Session.language s)
                               (UpdateCodeRequest.language r1))
                      (UpdateCodeRequest.code r2)
                      (default (Session.language (merge_request s r1))
                               (UpdateCodeRequest.language r2)) a2)
            as (conns' & Hrun)
      end.
      { simpl. by apply list_lookup_middle. }
      { simpl. subst n. rewrite delete_middle. by apply list_lookup_middle. }
      cbn [sockets connection_manager clock background memory_repository
           delivered broken] in Hrun.
      rewrite Hm1, Hm2 in Hrun.
      eexists. split_and!; [exact Hrun| |].
      * simpl. apply lookup_insert_eq.
      * intros ws. simpl sockets.
        rewrite observed_frames, observed_frames_plain.
        by rewrite <- app_assoc.
    + change [ev_put_code sid r1; ev_put_code sid r2; ev_background (S n);
              ev_background n]
        with ([ev_put_code sid r1; ev_put_code sid r2]
              ++ [ev_background (S n); ev_background n]).
      rewrite (run_events_app_Some _ _ _ _
                 (two_edits_pending sid s r1 r2 a Hs Hid)).
      assert (Hsplit :
        background a ++ [code_update_task sid s r1;
                         code_update_task sid (merge_request s r1) r2]
        = (background a ++ [code_update_task sid s r1])
          ++ [code_update_task sid (merge_request s r1) r2])
        by by rewrite <- app_assoc.
      match goal with
      | |- context [run_events _ ?a2] =>
          destruct (two_code_update_tasks (S n) n sid
                      (UpdateCodeRequest.code r2)
                      (default (Session.language (merge_request s r1))
                               (UpdateCodeRequest.language r2))
                      (UpdateCodeRequest.code r1)
                      (default (Session.language s)
                               (UpdateCodeRequest.language r1)) a2)
            as (conns' & Hrun)
      end.
      { simpl. rewrite Hsplit. apply list_lookup_middle.
        subst n. rewrite length_app. simpl. lia. }
      { simpl. rewrite Hsplit.
        replace (S n) with (length (background a ++ [code_update_task sid s r1]))
          by (subst n; rewrite length_app; simpl; lia).
        rewrite delete_middle, app_nil_r. by apply list_lookup_middle. }
      cbn [sockets connection_manager clock background memory_repository
           delivered broken] in Hrun.
      rewrite Hm1, Hm2 in Hrun.
      eexists. split_and!; [exact Hrun| |].
      * simpl. apply lookup_insert_eq.
      * intros ws. simpl sockets.
        rewrite observed_frames, observed_frames_plain.
        by rewrite <- app_assoc.
Qed.

(** ** The claims on concrete runs *)

(** C1 at [sample_app]: two edits are made and their broadcasts run in
    the order the edits were made; socket 1 observes them in that order. *)
Lemma code_updates_in_broadcast_order_sample :
  ∃ a',
    run_events [ev_put_code "session" edit_a; ev_put_code "session" edit_b;
                ev_background 0; ev_background 0] sample_app
    = Some a'
    ∧ observed 1%nat (sockets a')
      = [code_update_event (Session.mk "session" "a" python 0 1) 0;
         code_update_event (Session.mk "session" "b" python 0 1) 0].
Proof.
  destruct (proj2 code_updates_observed_in_broadcast_order
              sample_app "session" sample_session edit_a edit_b)
    as (_ & (a' & Hrun & _ & Hobs) & _).
  { apply lookup_singleton_eq. }
  { reflexivity. }
  exists a'. split; [exact Hrun|]. rewrite Hobs. reflexivity.
Defined.

(** C1 fails as stated. Two edits are made, "a" and then "b"; the two
    background broadcasts run in the other order, which nothing in the
    route or the connection manager prevents. Socket 1 observes the event
    of "b" before the event of "a", and the last event it holds is not the
    code the store holds. *)
Lemma code_updates_observed_out_of_order :
  (λ a, (observed 1%nat (sockets a),
         Session.code <$> memory_repository a !! "session"))
    <$> run_events [ev_post_session None; ev_ws_open 1%nat "session";
                    ev_put_code "session" edit_a; ev_put_code "session" edit_b;
                    ev_background 1; ev_background 0] empty_app
  = Some ([participant_event participant_joined "session" 1 0;
           code_update_event (Session.mk "session" "b" javascript 0 1) 0;
           code_update_event (Session.mk "session" "a" javascript 0 1) 0],
          Some "b").
Proof. vm_compute. reflexivity. Qed.

(** C2 at a session with no participants: increment, decrement,
    increment leaves one participant. *)
Lemma counter_interleaving_sample :
  ∃ s',
    run_counter "session" [incr; decr; incr]
                {["session" := Session.mk "session" "" python 0 0]}
    !! "session" = Some s'
    ∧ Session.participants s' = 1.
Proof.
  destruct (counter_interleaving_final_count
              "session" [incr; decr; incr]
              {["session" := Session.mk "session" "" python 0 0]}
              (Session.mk "session" "" python 0 0))
    as (s' & Hrun & _ & _ & Hbal).
  { apply lookup_singleton_eq. }
  { simpl. lia. }
  exists s'. split; [exact Hrun|]. rewrite Hbal; [reflexivity|].
  intros k. destruct k as [|[|[|k]]]; simpl; rewrite ?take_nil; simpl; lia.
Defined.

(** C2 fails as stated. One decrement and one increment, so N = M = 1,
    served in that order on a fresh session: the decrement is clamped and
    the final count is 1, not N - M = 0. *)
Lemma counter_interleaving_loses_clamped_decrement :
  let m := (SessionService.create_session None 0 ∅).2 in
  decrements [decr; incr] ≤ increments [decr; incr]
  ∧ Session.participants <$> m !! "session" = Some 0
  ∧ Session.participants <$> run_counter "session" [decr; incr] m !! "session"
    = Some 1
  ∧ increments [decr; incr] - decrements [decr; incr] = 0.
Proof. vm_compute. repeat split; congruence. Qed.

(** C4 at [sample_session]: an edit without a language keeps python. *)
Lemma update_code_merges_sample :
  ∃ s' m',
    SessionService.update_code "session" (UpdateCodeRequest.mk "print(1)" None)
                               {["session" := sample_session]}
    = (Some s', m')
    ∧ Session.code s' = "print(1)"
    ∧ Session.language s' = python.
Proof.
  destruct (update_code_merges_request
              {["session" := sample_session]} "session" sample_session
              "print(1)" None)
    as (s' & m' & Hrun & _ & Hcode & Hlang & _).
  { apply lookup_singleton_eq. }
  { reflexivity. }
  exists s', m'. split; [exact Hrun|]. split; [exact Hcode|exact Hlang].
Defined.

(** C8 on the empty application. *)
Lemma update_code_unknown_id_sample :
  sessions.update_code "nonexistent-id" (UpdateCodeRequest.mk "some code" None)
                       empty_app
  = (inl HTTP_404_NOT_FOUND, empty_app).
Proof.
  exact (proj1 (proj2 (update_code_unknown_id_is_not_found
                         empty_app "nonexistent-id"
                         (UpdateCodeRequest.mk "some code" None) eq_refl))).
Defined.



(** C3 on a run: two decrements on a fresh session, then an increment. *)
Lemma participants_never_negative_sample :
  counters_nonneg
    (run_calls [call_create_session (Some python) 0;
                call_remove_participant "session";
                call_remove_participant "session";
                call_add_participant "session"] ∅).
Proof.
  exact (proj1 (participants_never_negative
                  [call_create_session (Some python) 0;
                   call_remove_participant "session";
                   call_remove_participant "session";
                   call_add_participant "session"])).
Defined.

(** C7 with socket 1 registered: disconnecting socket 2 returns the
    registry unchanged. *)
Lemma disconnect_unregistered_sample :
  disconnect 2%nat "session" {["session" := [1%nat]]}
  = Some {["session" := [1%nat]]}.
Proof.
  destruct (proj1 (disconnect_unregistered_is_noop
                     2%nat "session" {["session" := [1%nat]]}))
    as (conns' & Hd & _ & _ & Heq).
  { unfold subscribers. rewrite lookup_singleton_eq. simpl.
    intros [Hne|Hin]%elem_of_cons; [lia|by apply elem_of_nil in Hin]. }
  rewrite Heq in Hd; [exact Hd|].
  intros sid l [_ <-]%lookup_singleton_Some. discriminate.
Defined.

(** C9 for a python session created at clock reading 5. *)
Lemma create_session_sample :
  let session := (SessionService.create_session (Some python) 5 ∅).1 in
  Session.code session = ""
  ∧ Session.participants session = 0
  ∧ Session.language session = python
  ∧ Session.createdAt session = 5.
Proof.
  destruct (create_session_returns_fresh_record python 5 ∅)
    as (Hcode & Hpart & Hlang & Hat & _).
  exact (conj Hcode (conj Hpart (conj Hlang Hat))).
Defined.

(** C10 on a run in which a transport is lost and its socket pruned. *)
Lemma registry_holds_no_empty_list_sample :
  ∃ a,
    run_events [ev_post_session None; ev_ws_open 1%nat "session";
                ev_transport_lost 1%nat;
                ev_put_code "session" edit_a; ev_background 0] empty_app
    = Some a
    ∧ registry_inv (connection_manager a)
    ∧ get_participant_count "session" (connection_manager a) = 0%nat.
Proof.
  destruct registry_holds_no_empty_list as (_ & _ & _ & _ & _ & Hrun & _ & Hzero).
  eexists. split; [vm_compute; reflexivity|]. split.
  - apply (Hrun [ev_post_session None; ev_ws_open 1%nat "session";
                 ev_transport_lost 1%nat;
                 ev_put_code "session" edit_a; ev_background 0]).
    vm_compute. reflexivity.
  - apply Hzero. vm_compute. reflexivity.
Defined.

(** * Further properties of the modelled code *)

(** ** websocket.py *)

Lemma remove_first_app_last ws l : ws ∉ l → remove_first ws (l ++ [ws]) = l.
Proof.
  induction l as [|c l IH]; simpl; intros Hnot.
  - by rewrite decide_True.
  - apply not_elem_of_cons in Hnot as [Hne Hnot].
    rewrite decide_False by done. by rewrite IH.
Qed.

Lemma put_after_insert sid l l' (conns : Registry) :
  put_subscribers sid l (<[sid := l']> conns) = put_subscribers sid l conns.
Proof.
  unfold put_subscribers. destruct l.
  - apply delete_insert_eq.
  - apply insert_insert_eq.
Qed.

Lemma occurrences_cons ws c l :
  occurrences ws (c :: l)
  = ((if decide (c = ws) then 1 else 0) + occurrences ws l)%nat.
Proof.
  unfold occurrences. rewrite filter_cons. by destruct (decide (c = ws)).
Qed.

Lemma occurrences_remove_first ws x l :
  x ∈ l →
  occurrences ws l
  = ((if decide (x = ws) then 1 else 0)
     + occurrences ws (remove_first x l))%nat.
Proof.
  induction l as [|c l IH]; simpl; [by intros ?%elem_of_nil|].
  intros Hx. rewrite occurrences_cons.
  destruct (decide (x = c)) as [->|Hne]; [done|].
  rewrite occurrences_cons.
  apply elem_of_cons in Hx as [?|Hx]; [done|]. rewrite (IH Hx). lia.
Qed.


Lemma connect_disconnect_registry ws sid (conns : Registry) :
  registry_inv conns → ws ∉ subscribers sid conns →
  put_subscribers sid (remove_first ws (subscribers sid conns ++ [ws]))
                  (<[sid := subscribers sid conns ++ [ws]]> conns)
  = conns.
Proof.
  intros Hinv Hnot. rewrite remove_first_app_last by done.
  rewrite put_after_insert. by apply put_subscribers_same.
Qed.

(** X2. Registering a socket that is not yet in the list of the session and
    removing it again gives back the registry as it was, entry for entry:
    no empty list is left behind for a session that had none. *)
Theorem connect_then_disconnect_restores :
  ∀ (ws : WebSocket) (session_id : string) (conns : Registry) (t : Transport),
    registry_inv conns →
    healthy t ws →
    ws ∉ subscribers session_id conns →
    connect ws session_id conns t ≫= (λ r, disconnect ws session_id r.1)
    = Some conns.
Proof.
  intros ws sid conns t Hinv Hh Hnot. rewrite connect_eq.
  rewrite decide_True by done. simpl.
  rewrite disconnect_eq, lookup_insert_eq.
  by rewrite connect_disconnect_registry.
Qed.

(** X3. [disconnect] of a registered socket removes one registration of that
    socket and nothing else: the count of the session drops by one, every
    other socket is registered as often as before, the entry goes when the
    list becomes empty, and no other session changes. *)
Theorem disconnect_removes_one_registration :
  ∀ (ws : WebSocket) (session_id : string) (conns : Registry),
    ws ∈ subscribers session_id conns →
    ∃ conns',
      disconnect ws session_id conns = Some conns'
      ∧ S (get_participant_count session_id conns')
        = get_participant_count session_id conns
      ∧ S (occurrences ws (subscribers session_id conns'))
        = occurrences ws (subscribers session_id conns)
      ∧ (∀ other_ws, other_ws ≠ ws →
           occurrences other_ws (subscribers session_id conns')
           = occurrences other_ws (subscribers session_id conns))
      ∧ (get_participant_count session_id conns' = 0%nat →
         conns' !! session_id = None)
      ∧ (∀ other, session_id ≠ other → conns' !! other = conns !! other).
Proof.
  intros ws sid conns Hin.
  destruct (disconnect ws sid conns) as [conns'|] eqn:Hd;
    [|by rewrite disconnect_eq in Hd].
  exists conns'. split; [done|].
  pose proof (disconnect_subscribers _ _ _ _ Hd) as Hsub.
  split_and!.
  - rewrite !get_participant_count_subscribers, Hsub.
    by apply remove_first_length.
  - rewrite Hsub, (occurrences_remove_first ws ws _ Hin).
    by rewrite decide_True.
  - intros other Hne. rewrite Hsub.
    rewrite (occurrences_remove_first other ws _ Hin).
    by rewrite decide_False.
  - rewrite get_participant_count_subscribers. intros Hz.
    rewrite disconnect_eq in Hd. unfold subscribers in Hin, Hsub.
    destruct (conns !! sid) as [l|] eqn:Hl; [|by apply elem_of_nil in Hin].
    injection Hd as <-. simpl in Hsub.
    rewrite put_subscribers_lookup in Hz.
    apply nil_length_inv in Hz. rewrite Hz. simpl. apply lookup_delete_eq.
  - intros other Hne. by eapply disconnect_other.
Qed.

(** X4. [broadcast] writes to the sockets of its own session only, writes
    nothing but its message, registers nobody and breaks no transport; for
    a session without an entry it returns the registry and the transports
    it was given. *)
Theorem broadcast_stays_in_its_session :
  ∀ (session_id : string) (message : SessionUpdate.t) (conns : Registry)
    (t : Transport),
  ∃ conns' t' written,
    broadcast session_id message conns t = Some (conns', t')
    ∧ delivered t' = delivered t ++ written
    ∧ (∀ p, p ∈ written →
         p.1 ∈ subscribers session_id conns ∧ p.2 = message)
    ∧ broken t' = broken t
    ∧ (∀ ws, ws ∈ subscribers session_id conns' →
         ws ∈ subscribers session_id conns)
    ∧ (conns !! session_id = None → conns' = conns ∧ t' = t).
Proof.
  intros sid msg conns t.
  destruct (broadcast_spec sid msg conns t)
    as (conns' & Hrun & Hsub & _ & _ & Hsame).
  eexists conns', _, _. split; [exact Hrun|]. simpl.
  split_and!; [done| |done| |].
  - intros p (ws & -> & Hws)%list_elem_of_fmap.
    apply list_elem_of_filter in Hws as [_ Hws]. done.
  - intros ws. rewrite Hsub. by intros [_ ?]%list_elem_of_filter.
  - intros Hnone.
    assert (Hnil : subscribers sid conns = [])
      by (unfold subscribers; by rewrite Hnone).
    split.
    + apply Hsame. rewrite Hnil. by intros ws ?%elem_of_nil.
    + rewrite Hnil. simpl. rewrite app_nil_r. by destruct t.
Qed.



(** X7. Each of the four [broadcast_*] helpers writes events of its own kind
    only, addressed to the session it was called for, stamped with the
    clock reading it took and carrying the fields of that kind and no
    others. *)
Theorem broadcast_helpers_build_their_kind :
  ∀ (session_id : string) (now : Z) (conns : Registry) (t : Transport)
    (code : string) (language : Language) (count : Z)
    (result : ExecutionResult.t),
    let built (kind : UpdateType)
              (r : option (Registry * Transport)) : Prop :=
      ∃ conns' t' written,
        r = Some (conns', t')
        ∧ delivered t' = delivered t ++ written
        ∧ ∀ p, p ∈ written →
            SessionUpdate.type p.2 = kind
            ∧ SessionUpdate.sessionId p.2 = session_id
            ∧ SessionUpdate.timestamp p.2 = now
            ∧ event_well_shaped p.2 in
    built code_update
          (broadcast_code_update session_id code language now conns t)
    ∧ built participant_joined
            (broadcast_participant_joined session_id count now conns t)
    ∧ built participant_left
            (broadcast_participant_left session_id count now conns t)
    ∧ built execution_result
            (broadcast_execution_result session_id result now conns t).
Proof.
  intros sid now conns t code language count result built.
  unfold built, broadcast_code_update, broadcast_participant_joined,
    broadcast_participant_left, broadcast_execution_result.
  split_and!.
  all: match goal with
       | |- context [broadcast ?s ?m ?c ?t0] =>
           destruct (broadcast_spec s m c t0) as (conns' & Hrun & _)
       end.
  all: eexists conns', _, _; split; [exact Hrun|]; split; [done|].
  all: intros p (ws & -> & _)%list_elem_of_fmap; simpl.
  all: unfold event_well_shaped; simpl; split_and!; eauto.
Qed.

(** X20. In a call of [broadcast] during whose sends no other handler runs,
    a send that fails stops nothing: the call returns normally, every
    registered socket whose send works has the message written to it (in
    registration order, after what it had already received), every socket
    whose send fails is gone from the session's list when the call
    returns, and nobody else is removed. *)
Theorem broadcast_contains_send_failures :
  ∀ (session_id : string) (message : SessionUpdate.t) (conns : Registry)
    (t : Transport),
  ∃ conns' t',
    broadcast session_id message conns t = Some (conns', t')
    ∧ delivered t'
      = delivered t
        ++ frames message (filter (healthy t) (subscribers session_id conns))
    ∧ (∀ ws, ws ∈ subscribers session_id conns → healthy t ws →
         (ws, message) ∈ delivered t' ∧ ws ∈ subscribers session_id conns')
    ∧ (∀ ws, ¬ healthy t ws → ws ∉ subscribers session_id conns')
    ∧ subscribers session_id conns'
      = filter (healthy t) (subscribers session_id conns)
    ∧ (∀ other, session_id ≠ other → conns' !! other = conns !! other).
Proof.
  intros sid msg conns t.
  destruct (broadcast_spec sid msg conns t)
    as (conns' & Hrun & Hsub & Hoth & _ & _).
  eexists conns', _. split; [exact Hrun|]. simpl.
  split_and!; [done| | |done|done].
  - intros ws Hws Hh. split.
    + apply elem_of_app. right. unfold frames. apply list_elem_of_fmap.
      exists ws. split; [done|]. by apply list_elem_of_filter.
    + rewrite Hsub. by apply list_elem_of_filter.
  - intros ws Hh. rewrite Hsub. by intros [? _]%list_elem_of_filter.
Qed.

(** ** [broadcast] from one await to the next *)

Lemma registry_of_lookup h sid :
  registry_of h !! sid = (λ address, contents address h) <$> entries h !! sid.
Proof. unfold registry_of. apply lookup_fmap. Qed.

Lemma subscribers_registry_of h sid :
  subscribers sid (registry_of h)
  = match entries h !! sid with
    | Some address => contents address h
    | None => []
    end.
Proof.
  unfold subscribers. rewrite registry_of_lookup.
  by destruct (entries h !! sid).
Qed.

Lemma live_wf_empty : live_wf empty_live.
Proof. split_and!; intros ?; intros; simplify_map_eq. Qed.

(** The registry after the list of one session has been changed in
    place. *)
Lemma registry_of_changed sid address objs' l' t' acc' h :
  live_wf h →
  entries h !! sid = Some address →
  (∀ a, a ≠ address → objs' !! a = objects h !! a) →
  default [] (objs' !! address) = l' →
  registry_of (mkLive objs' (entries h) t' acc')
  = <[sid := l']> (registry_of h)
  ∧ registry_of (mkLive objs' (delete sid (entries h)) t' acc')
    = delete sid (registry_of h).
Proof.
  intros (_ & Hinj & _) Hsid Hother Hnew.
  assert (Hkeep : ∀ k a, k ≠ sid → entries h !! k = Some a →
            contents a (mkLive objs' (entries h) t' acc') = contents a h).
  { intros k a Hk Ha. unfold contents. simpl. rewrite Hother; [done|].
    intros ->. apply Hk. by eapply Hinj. }
  split; apply map_eq; intros k; rewrite registry_of_lookup; simpl.
  - destruct (decide (k = sid)) as [->|Hk].
    + rewrite lookup_insert_eq, Hsid. simpl. unfold contents. simpl.
      by rewrite Hnew.
    + rewrite lookup_insert_ne by done. rewrite registry_of_lookup.
      destruct (entries h !! k) as [a|] eqn:Ha; [|done]. simpl.
      f_equal. by eapply Hkeep.
  - destruct (decide (k = sid)) as [->|Hk].
    + by rewrite !lookup_delete_eq.
    + rewrite !lookup_delete_ne by done. rewrite registry_of_lookup.
      destruct (entries h !! k) as [a|] eqn:Ha; [|done]. simpl.
      f_equal. by eapply (Hkeep k).
Qed.

(** [disconnect] on the list objects is [disconnect] on the registry. *)
Lemma live_disconnect_spec ws sid h :
  live_wf h →
  disconnect ws sid (registry_of h)
  = Some (registry_of (live_disconnect ws sid h))
  ∧ live_wf (live_disconnect ws sid h)
  ∧ wires (live_disconnect ws sid h) = wires h
  ∧ accepted (live_disconnect ws sid h) = accepted h.
Proof.
  intros Hwf. rewrite disconnect_eq, registry_of_lookup.
  unfold live_disconnect.
  destruct (entries h !! sid) as [address|] eqn:Hsid; simpl; [|done].
  pose proof Hwf as (Hlt & Hinj & Hacc).
  set (objs := if decide (ws ∈ contents address h)
               then alter (remove_first ws) address (objects h)
               else objects h).
  assert (Hlen : length objs = length (objects h)).
  { unfold objs. case_decide; [apply length_alter|done]. }
  assert (Hother : ∀ a, a ≠ address → objs !! a = objects h !! a).
  { intros a Ha. unfold objs. case_decide; [|done].
    by apply list_lookup_alter_ne. }
  assert (Hnew : default [] (objs !! address)
                 = remove_first ws (contents address h)).
  { unfold objs. case_decide as Hin.
    - rewrite list_lookup_alter_eq. unfold contents.
      destruct (lookup_lt_is_Some_2 _ _ (Hlt _ _ Hsid)) as [l Hl].
      by rewrite Hl.
    - by rewrite remove_first_notin. }
  assert (Hsub : ∀ k a x, entries h !! k = Some a →
            x ∈ default [] (objs !! a) → x ∈ accepted h).
  { intros k a x Ha Hx. apply (Hacc k a x Ha).
    destruct (decide (a = address)) as [->|Hne].
    - rewrite Hnew in Hx. by eapply remove_first_subseteq.
    - unfold contents. by rewrite <- Hother. }
  destruct (registry_of_changed sid address objs
              (remove_first ws (contents address h)) (wires h) (accepted h) h
              Hwf Hsid Hother Hnew) as [Hins Hdel].
  rewrite Hnew. unfold put_subscribers.
  destruct (remove_first ws (contents address h)) as [|x l'] eqn:Hrm.
  - rewrite Hdel. split_and!; [done| |done|done].
    split_and!; simpl.
    + intros k a [_ Ha]%lookup_delete_Some. rewrite Hlen. by eapply Hlt.
    + intros k k' a [_ Ha]%lookup_delete_Some [_ Ha']%lookup_delete_Some.
      by eapply Hinj.
    + intros k a y [_ Ha]%lookup_delete_Some Hy. by eapply Hsub.
  - rewrite Hins. split_and!; [done| |done|done].
    split_and!; simpl.
    + intros k a Ha. rewrite Hlen. by eapply Hlt.
    + done.
    + intros k a y Ha Hy. by eapply Hsub.
Qed.

(** [connect] on the list objects: refused for a socket that was accepted
    before, and [connect] on the registry otherwise. *)
Lemma live_connect_spec ws sid h :
  live_wf h →
  (ws ∈ accepted h → live_connect ws sid h = None)
  ∧ (ws ∉ accepted h →
     connect ws sid (registry_of h) (wires h)
     = (λ h', (registry_of h', wires h')) <$> live_connect ws sid h)
  ∧ (∀ h', live_connect ws sid h = Some h' →
           live_wf h' ∧ accepted h' = {[ws]} ∪ accepted h).
Proof.
  intros Hwf. pose proof Hwf as (Hlt & Hinj & Hacc).
  unfold live_connect.
  destruct (decide (ws ∈ accepted h)) as [Hin|Hnin].
  { rewrite option_guard_False by tauto. done. }
  rewrite option_guard_True by done. cbn [mbind option_bind].
  split; [done|].
  rewrite connect_eq. unfold accept, healthy.
  destruct (decide (ws ∈ broken (wires h))) as [Hb|Hb]; simpl.
  { rewrite decide_False by tauto. done. }
  rewrite decide_True by done.
  unfold subscribers. rewrite registry_of_lookup.
  destruct (entries h !! sid) as [address|] eqn:Hsid; simpl.
  - rewrite (insert_id (entries h)) by done.
    assert (Hnew : default []
                     (alter (λ l, l ++ [ws]) address (objects h) !! address)
                   = contents address h ++ [ws]).
    { rewrite list_lookup_alter_eq. unfold contents.
      destruct (lookup_lt_is_Some_2 _ _ (Hlt _ _ Hsid)) as [l Hl].
      by rewrite Hl. }
    destruct (registry_of_changed sid address
                (alter (λ l, l ++ [ws]) address (objects h))
                (contents address h ++ [ws]) (wires h)
                ({[ws]} ∪ accepted h) h Hwf Hsid)
      as [Hins _]; [|done|].
    { intros a Ha. by apply list_lookup_alter_ne. }
    rewrite Hins. split; [done|].
    intros h' [= <-]. split; [|done]. split_and!; simpl.
    + intros k a Ha. rewrite length_alter. by eapply Hlt.
    + done.
    + intros k a x Ha. unfold contents. simpl.
      destruct (decide (a = address)) as [->|Hne].
      * rewrite Hnew. intros [Hx|Hx%list_elem_of_singleton]%elem_of_app.
        -- apply elem_of_union_r. by eapply Hacc.
        -- subst x. apply elem_of_union_l. by apply elem_of_singleton.
      * rewrite list_lookup_alter_ne by done. intros Hx.
        apply elem_of_union_r. by eapply Hacc.
  - split.
    + intros _. f_equal. f_equal. apply map_eq. intros k.
      rewrite registry_of_lookup. simpl.
      destruct (decide (k = sid)) as [->|Hk].
      * rewrite !lookup_insert_eq. simpl. unfold contents. simpl.
        rewrite list_lookup_alter_eq, lookup_app_r by done.
        by rewrite Nat.sub_diag.
      * rewrite !lookup_insert_ne by done. rewrite registry_of_lookup.
        destruct (entries h !! k) as [a|] eqn:Ha; [|done]. simpl.
        pose proof (Hlt _ _ Ha) as Hlta.
        unfold contents. simpl.
        rewrite list_lookup_alter_ne by lia.
        by rewrite lookup_app_l by done.
    + intros h' [= <-]. split; [|done]. split_and!; simpl.
      * intros k a. rewrite length_alter, length_app. simpl.
        intros [[_ <-]|[_ Ha]]%lookup_insert_Some; [lia|].
        pose proof (Hlt _ _ Ha). lia.
      * intros k k' a [[<- <-]|[Hk Ha]]%lookup_insert_Some
                       [[<- Heq]|[Hk' Ha']]%lookup_insert_Some; try done.
        -- pose proof (Hlt _ _ Ha'). lia.
        -- pose proof (Hlt _ _ Ha). lia.
        -- by eapply Hinj.
      * intros k a x. unfold contents. simpl.
        intros [[_ <-]|[_ Ha]]%lookup_insert_Some.
        -- rewrite list_lookup_alter_eq, lookup_app_r by done.
           rewrite Nat.sub_diag. simpl.
           intros ->%list_elem_of_singleton.
           apply elem_of_union_l. by apply elem_of_singleton.
        -- pose proof (Hlt _ _ Ha).
           rewrite list_lookup_alter_ne by lia.
           rewrite lookup_app_l by done. intros Hx.
           apply elem_of_union_r. by eapply Hacc.
Qed.

(** The cleanup of lines 54-55. *)
Lemma cleanup_spec dead sid h :
  live_wf h →
  let h' := foldl (λ h' d, live_disconnect d sid h') h dead in
  disconnect_each dead sid (registry_of h) = Some (registry_of h')
  ∧ live_wf h'
  ∧ wires h' = wires h
  ∧ accepted h' = accepted h.
Proof.
  revert h. induction dead as [|d dead IH]; intros h Hwf; simpl; [done|].
  destruct (live_disconnect_spec d sid h Hwf) as (Hd & Hwf' & Ht & Ha).
  rewrite Hd. simpl.
  destruct (IH _ Hwf') as (Hrest & Hwf'' & Ht' & Ha').
  split_and!; [done|done| |]; congruence.
Qed.

Lemma drop_cons_inv {A} (l : list A) pos x rest :
  drop pos l = x :: rest → l !! pos = Some x ∧ drop (S pos) l = rest.
Proof.
  intros Hd. split.
  - rewrite <- (Nat.add_0_r pos), <- lookup_drop. by rewrite Hd.
  - rewrite <- Nat.add_1_r, <- drop_drop. by rewrite Hd.
Qed.

(** The loop of lines 47-51 when no other handler runs during its sends:
    it sends to what is left of the list as [send_each] does. *)
Lemma run_to_end_spec rest sid msg address pos dead objs ents t acc fuel :
  drop pos (default [] (objs !! address)) = rest →
  (length rest < fuel)%nat →
  run_to_end fuel (suspended (mkLoop sid msg (Some address) pos dead))
             (mkLive objs ents t acc)
  = Some (foldl (λ h' d, live_disconnect d sid h')
                (mkLive objs ents (send_each rest msg dead t).2 acc)
                (send_each rest msg dead t).1).
Proof.
  revert pos dead t fuel.
  induction rest as [|c rest IH]; intros pos dead t fuel Hdrop Hfuel;
    (destruct fuel as [|fuel]; [simpl in Hfuel; lia|]);
    simpl run_to_end; unfold resume, contents; simpl.
  - assert (Hnone : default [] (objs !! address) !! pos = None).
    { apply lookup_ge_None_2.
      pose proof (length_drop (default [] (objs !! address)) pos) as Hlen.
      rewrite Hdrop in Hlen. simpl in Hlen. lia. }
    rewrite Hnone. by destruct fuel.
  - destruct (drop_cons_inv _ _ _ _ Hdrop) as [Hc Hrest].
    rewrite Hc.
    destruct (send_json c msg t) as [t'|]; simpl;
      apply IH; try done; simpl in Hfuel; lia.
Qed.

(** X19. A call of [broadcast] during whose sends no other handler runs
    returns, after one resumption for each socket of the list and however
    many more it is allowed, and leaves the registry and the transports as
    [broadcast], the call taken as one step, computes them. *)
Theorem uninterrupted_broadcast_is_broadcast :
  ∀ (session_id : string) (message : SessionUpdate.t) (h : Live) (fuel : nat),
    live_wf h →
    (length (subscribers session_id (registry_of h)) ≤ fuel)%nat →
    ∃ h',
      (let '(p, h1) := live_broadcast session_id message h in
       run_to_end fuel p h1) = Some h'
      ∧ live_wf h'
      ∧ broadcast session_id message (registry_of h) (wires h)
        = Some (registry_of h', wires h').
Proof.
  intros sid msg [objs ents t acc] fuel Hwf Hfuel.
  change (let '(p, h1) := live_broadcast sid msg (mkLive objs ents t acc) in
          run_to_end fuel p h1)
    with (run_to_end (S fuel)
            (suspended (mkLoop sid msg (ents !! sid) 0 []))
            (mkLive objs ents t acc)).
  unfold broadcast, subscribers in *. rewrite registry_of_lookup in Hfuel |- *.
  simpl entries in *. simpl wires.
  destruct (ents !! sid) as [address|] eqn:Hsid; simpl in Hfuel |- *.
  - unfold contents in *. simpl in Hfuel |- *.
    pose proof (run_to_end_spec (default [] (objs !! address)) sid msg
                  address 0 [] objs ents t acc (S fuel) eq_refl) as Hrun.
    simpl run_to_end in Hrun. rewrite Hrun by lia. clear Hrun.
    destruct (send_each (default [] (objs !! address)) msg [] t)
      as [dead t'] eqn:Hsend. simpl.
    destruct (cleanup_spec dead sid (mkLive objs ents t' acc) Hwf)
      as (Hclean & Hwf' & Ht & _).
    eexists. split; [done|]. split; [done|].
    change (registry_of (mkLive objs ents t acc))
      with (registry_of (mkLive objs ents t' acc)).
    rewrite Hclean. simpl. by rewrite Ht.
  - exists (mkLive objs ents t acc). split; [by destruct fuel|]. done.
Qed.

Lemma remove_first_NoDup x l : NoDup l → NoDup (remove_first x l).
Proof.
  induction 1 as [|y l Hy Hl IH]; simpl; [constructor|].
  case_decide; [done|]. constructor; [|done].
  intros Hin. apply Hy. by eapply remove_first_subseteq.
Qed.

Lemma live_disconnect_once ws sid h :
  live_wf h → registered_once h → registered_once (live_disconnect ws sid h).
Proof.
  intros (Hlt & Hinj & _) Honce. unfold live_disconnect.
  destruct (entries h !! sid) as [address|] eqn:Hsid; [|done].
  set (objs := if decide (ws ∈ contents address h)
               then alter (remove_first ws) address (objects h)
               else objects h).
  assert (Hlists : ∀ k a, entries h !! k = Some a →
            NoDup (default [] (objs !! a))).
  { intros k a Ha. unfold objs. case_decide as Hin; [|by eapply Honce].
    destruct (decide (a = address)) as [->|Hne].
    - rewrite list_lookup_alter_eq.
      destruct (lookup_lt_is_Some_2 _ _ (Hlt _ _ Hsid)) as [l Hl].
      rewrite Hl. simpl. apply remove_first_NoDup.
      pose proof (Honce _ _ Hsid) as Hnd. unfold contents in Hnd.
      by rewrite Hl in Hnd.
    - rewrite list_lookup_alter_ne by done. by eapply Honce. }
  destruct (default [] (objs !! address)); intros k a; simpl.
  - intros [_ Ha]%lookup_delete_Some. by eapply Hlists.
  - by apply Hlists.
Qed.

Lemma live_connect_once ws sid h h' :
  live_wf h → registered_once h → live_connect ws sid h = Some h' →
  registered_once h'.
Proof.
  intros (Hlt & Hinj & Hacc) Honce. unfold live_connect.
  destruct (decide (ws ∈ accepted h)) as [Hin|Hnin].
  { by rewrite option_guard_False by tauto. }
  rewrite option_guard_True by done. cbn [mbind option_bind].
  unfold accept. case_decide; [done|]. simpl.
  destruct (entries h !! sid) as [address|] eqn:Hsid; intros [= <-] k a;
    unfold contents; simpl.
  - rewrite (insert_id (entries h)) by done. intros Ha.
    destruct (decide (a = address)) as [->|Hne].
    + rewrite list_lookup_alter_eq.
      destruct (lookup_lt_is_Some_2 _ _ (Hlt _ _ Hsid)) as [l Hl].
      rewrite Hl. simpl. pose proof (Honce _ _ Hsid) as Hnd.
      pose proof (Hacc _ _ ws Hsid) as Hws.
      unfold contents in Hnd, Hws. rewrite Hl in Hnd, Hws. simpl in *.
      apply NoDup_app. split_and!; [done| |apply NoDup_singleton].
      intros x Hx ->%list_elem_of_singleton. tauto.
    + rewrite list_lookup_alter_ne by done. by eapply Honce.
  - intros [[_ <-]|[_ Ha]]%lookup_insert_Some.
    + rewrite list_lookup_alter_eq, lookup_app_r by done.
      rewrite Nat.sub_diag. simpl. apply NoDup_singleton.
    + pose proof (Hlt _ _ Ha).
      rewrite list_lookup_alter_ne by lia.
      rewrite lookup_app_l by done. by eapply Honce.
Qed.

(** What a resumption leaves of the three invariants. *)
Lemma resume_inv lp h :
  live_wf h → registered_once h → registry_inv (registry_of h) →
  live_wf (resume lp h).2
  ∧ registered_once (resume lp h).2
  ∧ registry_inv (registry_of (resume lp h).2).
Proof.
  intros Hwf Honce Hinv. unfold resume.
  destruct (_ !! loop_position lp) as [connection|].
  - destruct (send_json connection (loop_message lp) (wires h)); simpl; done.
  - simpl. generalize (loop_dead lp). intros dead.
    revert h Hwf Honce Hinv.
    induction dead as [|d dead IH]; intros h Hwf Honce Hinv; simpl; [done|].
    destruct (live_disconnect_spec d (loop_session lp) h Hwf)
      as (Hd & Hwf' & _).
    apply IH; [done|by apply live_disconnect_once|by eapply disconnect_inv].
Qed.

Lemma apply_step_inv st s s' :
  apply_step st s = Some s' →
  live_wf (manager s) → registered_once (manager s) →
  registry_inv (registry_of (manager s)) →
  live_wf (manager s')
  ∧ registered_once (manager s')
  ∧ registry_inv (registry_of (manager s')).
Proof.
  intros Hst Hwf Honce Hinv.
  destruct st as [ws sid|ws sid|ws|sid msg|k]; simpl in Hst.
  - destruct (live_connect ws sid (manager s)) as [h'|] eqn:Hc; [|done].
    injection Hst as <-. simpl.
    destruct (live_connect_spec ws sid (manager s) Hwf)
      as (Hno & Hyes & Hwf').
    destruct (Hwf' _ Hc) as [Hwf1 _].
    split_and!; [done|by apply (live_connect_once ws sid (manager s))|].
    destruct (decide (ws ∈ accepted (manager s))) as [Hin|Hnin];
      [by rewrite Hno in Hc|].
    specialize (Hyes Hnin). rewrite Hc in Hyes. simpl in Hyes.
    by eapply connect_inv.
  - injection Hst as <-. simpl.
    destruct (live_disconnect_spec ws sid (manager s) Hwf) as (Hd & Hwf' & _).
    split_and!; [done|by apply live_disconnect_once|by eapply disconnect_inv].
  - injection Hst as <-. simpl. done.
  - pose proof (resume_inv
                  (mkLoop sid msg (entries (manager s) !! sid) 0 [])
                  (manager s) Hwf Honce Hinv) as Hres.
    unfold live_broadcast in Hst.
    destruct (resume _ (manager s)) as [p h]. by injection Hst as <-.
  - destruct (broadcasts s !! k) as [[lp|]|]; [|done|done].
    pose proof (resume_inv lp (manager s) Hwf Honce Hinv) as Hres.
    destruct (resume lp (manager s)) as [p h]. by injection Hst as <-.
Qed.

Lemma run_steps_inv sts s s' :
  run_steps sts s = Some s' →
  live_wf (manager s) → registered_once (manager s) →
  registry_inv (registry_of (manager s)) →
  live_wf (manager s')
  ∧ registered_once (manager s')
  ∧ registry_inv (registry_of (manager s')).
Proof.
  revert s. induction sts as [|st sts IH]; intros s; simpl.
  - by intros [= <-].
  - destruct (apply_step st s) as [s1|] eqn:Hst; [|done]. simpl.
    intros Hrun Hwf Honce Hinv.
    destruct (apply_step_inv _ _ _ Hst Hwf Honce Hinv) as (? & ? & ?).
    by apply (IH s1).
Qed.


(** X22. Whatever the order in which handlers and calls of [broadcast]
    take their turns, the connection manager never maps a session to an
    empty list, never holds a socket twice in a list, and refuses to
    connect a socket that is registered. *)
Theorem interleaving_keeps_registry :
  ∀ (sts : list Step) (s : Server),
    run_steps sts empty_server = Some s →
    registry_inv (registry_of (manager s))
    ∧ (∀ session_id, NoDup (subscribers session_id (registry_of (manager s))))
    ∧ (∀ ws session_id other,
         ws ∈ subscribers session_id (registry_of (manager s)) →
         live_connect ws other (manager s) = None).
Proof.
  intros sts s Hrun.
  destruct (run_steps_inv sts empty_server s Hrun)
    as (Hwf & Honce & Hinv).
  { apply live_wf_empty. }
  { intros k a Hk. simplify_map_eq. }
  { apply registry_inv_empty. }
  split_and!; [done| |].
  - intros sid. rewrite subscribers_registry_of.
    destruct (entries (manager s) !! sid) as [a|] eqn:Ha;
      [by eapply Honce|constructor].
  - intros ws sid other Hin.
    destruct (live_connect_spec ws other (manager s) Hwf) as (Hno & _).
    apply Hno. rewrite subscribers_registry_of in Hin.
    destruct (entries (manager s) !! sid) as [a|] eqn:Ha;
      [|by apply elem_of_nil in Hin].
    destruct Hwf as (_ & _ & Hacc). by eapply Hacc.
Qed.

(** X21. Calls of [broadcast] for one session are not serialized: with
    sockets 1 and 2 registered, a call begun while an earlier one waits in
    its send to socket 1 may go on first, and then socket 1 observes the
    event of the earlier call first and socket 2 the event of the later
    call first. *)
Lemma overlapping_broadcasts_reorder :
  outcome <$> run_steps overlapping_broadcasts empty_server
  = Some ([1; 2]%nat, [returned; returned],
          ([sample_update; later_update], [later_update; sample_update], [])).
Proof. by vm_compute. Qed.

(** ** services/session_service.py and routers/sessions.py *)

Lemma default_last_cons {A} (d x : A) (l : list A) :
  default d (last (x :: l)) = default x (last l).
Proof.
  revert d x. induction l as [|y l IH]; intros d x; [done|].
  change (last (x :: y :: l)) with (last (y :: l)).
  by rewrite (IH d y), (IH x y).
Qed.

Lemma run_updates_eq sid requests (m : Store) s :
  m !! sid = Some s → Session.id s = sid →
  run_updates sid requests m
  = match requests with
    | [] => m
    | _ :: _ => <[sid := fold_left merge_request requests s]> m
    end.
Proof.
  revert m s. induction requests as [|r rest IH]; intros m s Hs Hid; [done|].
  change (run_updates sid (r :: rest) m)
    with (run_updates sid rest (SessionService.update_code sid r m).2).
  pose proof (update_code_found sid s r m Hs Hid) as Hup. simpl in Hup.
  rewrite Hup. cbn [snd].
  assert (Hm : Session.mk sid (UpdateCodeRequest.code r)
                 (default (Session.language s) (UpdateCodeRequest.language r))
                 (Session.createdAt s) (Session.participants s)
               = merge_request s r)
    by (unfold merge_request; by rewrite Hid).
  rewrite Hm.
  rewrite (IH _ (merge_request s r)); [|apply lookup_insert_eq|done].
  destruct rest as [|r' rest]; [done|]. by rewrite insert_insert_eq.
Qed.

Lemma fold_merge_request_fields requests s :
  let s' := fold_left merge_request requests s in
  Session.code s'
  = default (Session.code s) (last (UpdateCodeRequest.code <$> requests))
  ∧ Session.language s'
    = default (Session.language s)
              (last (omap UpdateCodeRequest.language requests))
  ∧ Session.id s' = Session.id s
  ∧ Session.createdAt s' = Session.createdAt s
  ∧ Session.participants s' = Session.participants s.
Proof.
  revert s. induction requests as [|r rest IH]; intros s; [done|].
  simpl. destruct (IH (merge_request s r)) as (Hc & Hl & Hi & Ha & Hp).
  rewrite Hc, Hl, Hi, Ha, Hp. simpl. split_and!; try done.
  - by rewrite default_last_cons.
  - destruct (UpdateCodeRequest.language r) as [l|]; simpl; [|done].
    by rewrite default_last_cons.
Qed.

(** X8. Edits of one session served one after the other: the store ends with
    the code of the last edit and the language of the last edit that
    carried one (its own when none did); id, creation time and participant
    count are those it started with, and no other session has changed. *)
Theorem update_code_last_write_wins :
  ∀ (session_id : string) (requests : list UpdateCodeRequest.t) (m : Store)
    (s : Session.t),
    m !! session_id = Some s →
    Session.id s = session_id →
    ∃ s',
      run_updates session_id requests m !! session_id = Some s'
      ∧ Session.code s'
        = default (Session.code s)
                  (last (UpdateCodeRequest.code <$> requests))
      ∧ Session.language s'
        = default (Session.language s)
                  (last (omap UpdateCodeRequest.language requests))
      ∧ Session.id s' = Session.id s
      ∧ Session.createdAt s' = Session.createdAt s
      ∧ Session.participants s' = Session.participants s
      ∧ (∀ other, other ≠ session_id →
           run_updates session_id requests m !! other = m !! other).
Proof.
  intros sid requests m s Hs Hid.
  rewrite (run_updates_eq sid requests m s Hs Hid).
  destruct requests as [|r rest].
  - exists s. by split_and!.
  - exists (fold_left merge_request (r :: rest) s).
    split; [apply lookup_insert_eq|].
    destruct (fold_merge_request_fields (r :: rest) s)
      as (Hc & Hl & Hi & Ha & Hp).
    split_and!; try done.
    intros other Hne. by rewrite lookup_insert_ne.
Qed.

(** X9. Serving the same edit a second time changes nothing: it returns the
    record the first call returned and leaves the store the first call
    left. *)
Theorem update_code_idempotent :
  ∀ (session_id : string) (request : UpdateCodeRequest.t) (m : Store)
    (s : Session.t),
    m !! session_id = Some s →
    Session.id s = session_id →
    SessionService.update_code session_id request
      (SessionService.update_code session_id request m).2
    = SessionService.update_code session_id request m.
Proof.
  intros sid request m s Hs Hid.
  pose proof (update_code_found sid s request m Hs Hid) as Hup.
  simpl in Hup. rewrite Hup. cbn [snd].
  set (s1 := Session.mk sid (UpdateCodeRequest.code request)
               (default (Session.language s)
                        (UpdateCodeRequest.language request))
               (Session.createdAt s) (Session.participants s)).
  assert (H1 : <[sid := s1]> m !! sid = Some s1) by apply lookup_insert_eq.
  pose proof (update_code_found sid s1 request _ H1 eq_refl) as Hup2.
  simpl in Hup2. rewrite Hup2. rewrite insert_insert_eq.
  subst s1. by destruct (UpdateCodeRequest.language request).
Qed.

Lemma sessions_get_session_eq sid a :
  sessions_get_session sid a
  = match memory_repository a !! sid with
    | Some s => (inr s, a)
    | None => (inl HTTP_404_NOT_FOUND, a)
    end.
Proof. done. Qed.

(** X10. [POST /sessions] followed by [GET /sessions/{id}] with the id of the
    response returns the record of the response. Before the [POST] that id
    was answered with 404; the [POST] touches no socket, no registration,
    no pending broadcast and no other session, and without a body the
    session is a javascript one. *)
Theorem create_then_get_session :
  ∀ (request : option CreateSessionRequest.t) (a : App),
    let session := (sessions.create_session request a).1 in
    let a' := (sessions.create_session request a).2 in
    sessions_get_session (Session.id session) a' = (inr session, a')
    ∧ sessions_get_session (Session.id session) a = (inl HTTP_404_NOT_FOUND, a)
    ∧ Session.language session
      = match request with
        | Some r => CreateSessionRequest.language r
        | None => javascript
        end
    ∧ connection_manager a' = connection_manager a
    ∧ sockets a' = sockets a
    ∧ background a' = background a
    ∧ (∀ other s, memory_repository a !! other = Some s →
         memory_repository a' !! other = Some s).
Proof.
  intros request a. rewrite create_session_app. cbn [fst snd].
  pose proof (fresh_string_fresh (memory_repository a) "session") as Hfresh.
  rewrite !sessions_get_session_eq. cbn [Session.id memory_repository].
  rewrite lookup_insert_eq, Hfresh. split_and!; try done.
  intros other s Hs. rewrite lookup_insert_ne; [done|]. congruence.
Qed.

(** X11. [PUT /sessions/{id}/code] on a stored session answers with the record
    it has stored: a [GET] that follows returns the same record, and the
    one broadcast the route has added carries the code and the language of
    that record. *)
Theorem put_code_then_get_session :
  ∀ (a : App) (session_id : string) (s : Session.t)
    (request : UpdateCodeRequest.t),
    memory_repository a !! session_id = Some s →
    Session.id s = session_id →
    ∃ s' a',
      sessions.update_code session_id request a = (inr s', a')
      ∧ sessions_get_session session_id a' = (inr s', a')
      ∧ background a'
        = background a
          ++ [task_broadcast_code_update session_id (Session.code s')
                                         (Session.language s')]
      ∧ connection_manager a' = connection_manager a
      ∧ sockets a' = sockets a.
Proof.
  intros a sid s request Hs Hid.
  rewrite update_code_app, Hs, Hid, Hs. eexists _, _. split; [done|].
  rewrite sessions_get_session_eq. cbn [memory_repository].
  rewrite lookup_insert_eq. by split_and!.
Qed.


(** ** main.py: [websocket_endpoint] *)

Lemma set_participants_same s n :
  n = Session.participants s → set_participants n s = s.
Proof. intros ->. by destruct s. Qed.

(** X13. A socket that enters the endpoint of a stored session and leaves it
    again, nothing else happening in between and no transport being lost:
    the registry and the store are back as they were. In between, the
    sockets registered before and the new one were sent
    [participant_joined] with the counter raised by one; afterwards the
    sockets registered before, and not the one that left, were sent
    [participant_left] with the counter as it was. *)
Theorem endpoint_enter_then_leave :
  ∀ (ws : WebSocket) (session_id : string) (s : Session.t) (a : App),
    no_transport_lost a →
    registry_inv (connection_manager a) →
    memory_repository a !! session_id = Some s →
    0 ≤ Session.participants s →
    ws ∉ subscribers session_id (connection_manager a) →
    let before := subscribers session_id (connection_manager a) in
    let p := Session.participants s in
    ∃ a',
      websocket_endpoint_open ws session_id a
      ≫= websocket_endpoint_close ws session_id
      = Some a'
      ∧ connection_manager a' = connection_manager a
      ∧ memory_repository a' = memory_repository a
      ∧ background a' = background a
      ∧ delivered (sockets a')
        = delivered (sockets a)
          ++ frames (participant_event participant_joined session_id (p + 1)
                                       (clock a)) (before ++ [ws])
          ++ frames (participant_event participant_left session_id p
                                       (clock a)) before.
Proof.
  intros ws sid s a Hh Hinv Hs Hp Hnot before p.
  rewrite (websocket_endpoint_open_healthy ws sid s a Hh Hs).
  cbn [mbind option_bind].
  set (a1 := mkApp _ _ _ _ _).
  assert (Hinv1 : registry_inv (connection_manager a1)).
  { unfold a1. simpl.
    intros k l [[_ <-]|[_ Hk]]%lookup_insert_Some; [|by eapply Hinv].
    by destruct (subscribers sid (connection_manager a)). }
  assert (Hs1 : memory_repository a1 !! sid
                = Some (set_participants (Session.participants s + 1) s))
    by (unfold a1; simpl; apply lookup_insert_eq).
  rewrite (websocket_endpoint_close_healthy ws sid _ a1 Hh Hinv1 Hs1).
  eexists. split; [done|]. subst a1. simpl.
  rewrite subscribers_insert.
  replace (Z.max 0 (Session.participants s + 1 - 1))
    with (Session.participants s) by lia.
  split_and!.
  - by apply connect_disconnect_registry.
  - rewrite insert_insert_eq.
    change (set_participants (Session.participants s)
              (set_participants (Session.participants s + 1) s))
      with (set_participants (Session.participants s) s).
    rewrite set_participants_same by done. by apply insert_id.
  - done.
  - rewrite remove_first_app_last by done. by rewrite <- app_assoc.
Qed.


(** ** Every run of the application *)

Lemma broadcast_keeps_absent sid msg (conns conns' : Registry) t t' k :
  broadcast sid msg conns t = Some (conns', t') →
  conns !! k = None → conns' !! k = None.
Proof.
  intros Hb Hk.
  destruct (broadcast_spec sid msg conns t) as (c & Hrun & _ & Hoth & _ & Hsame).
  rewrite Hrun in Hb. injection Hb as <- <-.
  destruct (decide (sid = k)) as [->|Hne]; [|by rewrite Hoth].
  rewrite Hsame; [done|]. unfold subscribers. rewrite Hk.
  by intros ws ?%elem_of_nil.
Qed.

Lemma disconnect_keeps_absent ws sid (conns conns' : Registry) k :
  disconnect ws sid conns = Some conns' →
  conns !! k = None → conns' !! k = None.
Proof.
  intros Hd Hk. destruct (decide (sid = k)) as [->|Hne].
  - rewrite disconnect_eq, Hk in Hd. by injection Hd as <-.
  - by rewrite (disconnect_other _ _ _ _ _ Hd Hne).
Qed.

(** What one event does to the registry and to the store, whether or not
    sends fail: the store is changed by service calls only, and an entry
    of the registry is created only for a session the store holds. *)
Lemma apply_event_effect ev a a' :
  apply_event ev a = Some a' →
  (∃ calls, memory_repository a' = run_calls calls (memory_repository a))
  ∧ (∀ k, connection_manager a !! k = None →
          memory_repository a !! k = None →
          connection_manager a' !! k = None).
Proof.
  intros Hev.
  destruct ev as [req|sid req|i|ws sid|ws sid|ws|]; unfold apply_event in Hev.
  - injection Hev as <-. split; [|done].
    by exists [call_create_session
                 (Some match req with
                       | Some r => CreateSessionRequest.language r
                       | None => javascript
                       end) (clock a)].
  - injection Hev as <-. split.
    + exists [call_update_code sid req]. unfold sessions.update_code.
      simpl.
      by destruct (SessionService.update_code sid req (memory_repository a))
        as [[s|] repo].
    + unfold sessions.update_code.
      by destruct (SessionService.update_code sid req (memory_repository a))
        as [[s|] repo].
  - destruct (background a !! i) as [task|]; [|done]. simpl in Hev.
    unfold run_background_task in Hev.
    destruct task as [sid c l|sid r];
      unfold broadcast_code_update, broadcast_execution_result in Hev.
    all: match type of Hev with
         | context [broadcast ?s ?m ?c ?t] =>
             destruct (broadcast s m c t) as [[c1 t1]|] eqn:Hb
         end; [|done].
    all: simpl in Hev; injection Hev as <-; simpl.
    all: split; [by exists []|intros k Hk _; by eapply broadcast_keeps_absent].
  - unfold websocket_endpoint_open, SessionService.get_session in Hev.
    change (get sid (memory_repository a))
      with (memory_repository a !! sid) in Hev.
    destruct (memory_repository a !! sid) as [s|] eqn:Hs;
      [|injection Hev as <-; split; [by exists []|done]].
    rewrite connect_eq in Hev.
    destruct (decide (healthy (sockets a) ws)); [|done].
    cbn [mbind option_bind] in Hev.
    unfold broadcast_participant_joined in Hev.
    unfold SessionService.add_participant in Hev.
    change (increment_participants sid (memory_repository a))
      with (memory_increment_participants sid (memory_repository a)) in Hev.
    destruct (memory_increment_participants sid (memory_repository a))
      as [o repo] eqn:Hinc.
    cbv beta iota zeta in Hev.
    match type of Hev with
    | context [broadcast ?s ?m ?c ?t] =>
        destruct (broadcast s m c t) as [[c2 t2]|] eqn:Hb
    end; [|done].
    simpl in Hev. injection Hev as <-. simpl. split.
    + exists [call_add_participant sid]. simpl.
      unfold SessionService.add_participant. simpl. by rewrite Hinc.
    + intros k Hk Hmem. eapply broadcast_keeps_absent; [exact Hb|].
      rewrite lookup_insert_ne; [done|]. congruence.
  - unfold websocket_endpoint_close in Hev.
    destruct (disconnect ws sid (connection_manager a)) as [c1|] eqn:Hd;
      [|done].
    cbn [mbind option_bind] in Hev.
    unfold broadcast_participant_left in Hev.
    unfold SessionService.remove_participant in Hev.
    change (decrement_participants sid (memory_repository a))
      with (memory_decrement_participants sid (memory_repository a)) in Hev.
    destruct (memory_decrement_participants sid (memory_repository a))
      as [o repo] eqn:Hdec.
    cbv beta iota zeta in Hev.
    match type of Hev with
    | context [broadcast ?s ?m ?c ?t] =>
        destruct (broadcast s m c t) as [[c2 t2]|] eqn:Hb
    end; [|done].
    simpl in Hev. injection Hev as <-. simpl. split.
    + exists [call_remove_participant sid]. simpl.
      unfold SessionService.remove_participant. simpl. by rewrite Hdec.
    + intros k Hk _. eapply broadcast_keeps_absent; [exact Hb|].
      by eapply disconnect_keeps_absent.
  - injection Hev as <-. split; [by exists []|done].
  - injection Hev as <-. split; [by exists []|done].
Qed.

Lemma run_calls_app calls1 calls2 (m : Store) :
  run_calls (calls1 ++ calls2) m = run_calls calls2 (run_calls calls1 m).
Proof. apply fold_left_app. Qed.

Lemma apply_call_keeps_records c (m : Store) k s :
  store_inv m → m !! k = Some s →
  ∃ s',
    apply_call c m !! k = Some s'
    ∧ Session.id s' = Session.id s
    ∧ Session.createdAt s' = Session.createdAt s.
Proof.
  intros Hinv Hk. destruct c as [l now|sid req|sid|sid]; simpl.
  - unfold SessionService.create_session. simpl. unfold memory_create. simpl.
    exists s. split; [|done]. rewrite lookup_insert_ne; [done|].
    intros Heq. pose proof (fresh_string_fresh m "session") as Hf.
    rewrite Heq in Hf. congruence.
  - destruct (m !! sid) as [s0|] eqn:Hs.
    + rewrite (update_code_found sid s0 req m Hs (Hinv _ _ Hs)). simpl.
      destruct (decide (sid = k)) as [->|Hne].
      * rewrite lookup_insert_eq. eexists. split; [done|]. simpl.
        assert (s0 = s) as -> by congruence. by rewrite (Hinv _ _ Hk).
      * rewrite lookup_insert_ne by done. by exists s.
    + rewrite update_code_missing by done. by exists s.
  - unfold SessionService.add_participant. simpl.
    unfold memory_increment_participants.
    destruct (m !! sid) as [s0|] eqn:Hs; [|by exists s]. simpl.
    destruct (decide (sid = k)) as [->|Hne].
    + rewrite lookup_insert_eq. eexists. split; [done|]. simpl.
      by assert (s0 = s) as -> by congruence.
    + rewrite lookup_insert_ne by done. by exists s.
  - unfold SessionService.remove_participant. simpl.
    unfold memory_decrement_participants.
    destruct (m !! sid) as [s0|] eqn:Hs; [|by exists s]. simpl.
    destruct (decide (sid = k)) as [->|Hne].
    + rewrite lookup_insert_eq. eexists. split; [done|]. simpl.
      by assert (s0 = s) as -> by congruence.
    + rewrite lookup_insert_ne by done. by exists s.
Qed.

Lemma run_calls_keeps_records calls (m : Store) k s :
  store_inv m → m !! k = Some s →
  ∃ s',
    run_calls calls m !! k = Some s'
    ∧ Session.id s' = Session.id s
    ∧ Session.createdAt s' = Session.createdAt s.
Proof.
  revert m s. induction calls as [|c calls IH]; intros m s Hinv Hk.
  - by exists s.
  - destruct (apply_call_keeps_records c m k s Hinv Hk) as (s1 & H1 & Hi & Ha).
    destruct (IH (apply_call c m) s1 (apply_call_store_inv c m Hinv) H1)
      as (s' & H' & Hi' & Ha').
    exists s'. split; [exact H'|]. split; congruence.
Qed.

Lemma run_calls_store_inv calls (m : Store) :
  store_inv m → store_inv (run_calls calls m).
Proof.
  revert m. induction calls as [|c calls IH]; intros m Hinv; [done|].
  simpl. apply IH. by apply apply_call_store_inv.
Qed.

Lemma run_events_store evs a a' :
  run_events evs a = Some a' →
  ∃ calls, memory_repository a' = run_calls calls (memory_repository a).
Proof.
  revert a. induction evs as [|ev evs IH]; intros a; simpl.
  - intros [= <-]. by exists [].
  - destruct (apply_event ev a) as [a1|] eqn:Hev; [|done]. simpl.
    intros Hrun. destruct (IH _ Hrun) as (calls2 & H2).
    destruct (apply_event_effect _ _ _ Hev) as [(calls1 & H1) _].
    exists (calls1 ++ calls2). by rewrite run_calls_app, <- H1.
Qed.

Lemma run_calls_keeps_absent_registry_keys calls (m : Store) k :
  run_calls calls m !! k = None → m !! k = None.
Proof.
  destruct (m !! k) as [s|] eqn:Hk; [|done]. intros Hnone. exfalso.
  revert m s Hk Hnone. induction calls as [|c calls IH]; intros m s Hk Hnone.
  - simpl in Hnone. congruence.
  - simpl in Hnone.
    assert (is_Some (apply_call c m !! k)) as [s1 H1]; [|by eapply IH].
    destruct c as [l now|sid req|sid|sid]; simpl.
    + unfold SessionService.create_session. simpl. unfold memory_create.
      simpl. apply lookup_insert_is_Some'. right. eauto.
    + unfold SessionService.update_code. simpl. unfold memory_get.
      destruct (m !! sid) as [s0|]; [|eauto].
      unfold memory_update.
      destruct (m !! Session.id (model_copy s0 _)); simpl; [|eauto].
      apply lookup_insert_is_Some'. right. eauto.
    + unfold SessionService.add_participant. simpl.
      unfold memory_increment_participants.
      destruct (m !! sid) as [s0|]; simpl; [|eauto].
      apply lookup_insert_is_Some'. right. eauto.
    + unfold SessionService.remove_participant. simpl.
      unfold memory_decrement_participants.
      destruct (m !! sid) as [s0|]; simpl; [|eauto].
      apply lookup_insert_is_Some'. right. eauto.
Qed.

Lemma run_events_keeps_unregistered evs a a' :
  run_events evs a = Some a' →
  (∀ k, memory_repository a !! k = None → connection_manager a !! k = None) →
  ∀ k, memory_repository a' !! k = None → connection_manager a' !! k = None.
Proof.
  revert a. induction evs as [|ev evs IH]; intros a; simpl.
  - by intros [= <-].
  - destruct (apply_event ev a) as [a1|] eqn:Hev; [|done]. simpl.
    intros Hrun Ha. apply (IH _ Hrun).
    destruct (apply_event_effect _ _ _ Hev) as [(calls & Hcalls) Hreg].
    intros k Hk. rewrite Hcalls in Hk.
    apply run_calls_keeps_absent_registry_keys in Hk. auto.
Qed.

(** X15. Whatever happens -- edits, sockets entering and leaving, broadcasts
    running in any order, transports failing --, the connection manager
    never holds a socket for a session the store does not hold: such a
    session has no entry in the registry and a participant count of 0. *)
Theorem unknown_sessions_have_no_sockets :
  ∀ (evs : list Event) (a : App) (session_id : string),
    run_events evs empty_app = Some a →
    memory_repository a !! session_id = None →
    connection_manager a !! session_id = None
    ∧ get_participant_count session_id (connection_manager a) = 0%nat.
Proof.
  intros evs a sid Hrun Hnone.
  assert (Hreg : connection_manager a !! sid = None).
  { eapply run_events_keeps_unregistered; [exact Hrun| |exact Hnone]. done. }
  split; [done|]. unfold get_participant_count. by rewrite Hreg.
Qed.

(** X16. Whatever happens, a stored session stays stored, under the same id
    and with the creation time it had: nothing deletes a record or
    rewrites these two fields. Every record stays stored under its own
    id, and the participant counters stay at or above zero if they were. *)
Theorem sessions_persist :
  ∀ (evs : list Event) (a a' : App) (session_id : string) (s : Session.t),
    store_inv (memory_repository a) →
    run_events evs a = Some a' →
    memory_repository a !! session_id = Some s →
    (∃ s',
       memory_repository a' !! session_id = Some s'
       ∧ Session.id s' = session_id
       ∧ Session.createdAt s' = Session.createdAt s)
    ∧ store_inv (memory_repository a')
    ∧ (counters_nonneg (memory_repository a) →
       counters_nonneg (memory_repository a')).
Proof.
  intros evs a a' sid s Hinv Hrun Hs.
  destruct (run_events_store _ _ _ Hrun) as (calls & ->).
  split_and!.
  - destruct (run_calls_keeps_records calls _ sid s Hinv Hs)
      as (s' & H' & Hi & Ha).
    exists s'. split; [done|]. split; [|done]. rewrite Hi. by apply Hinv.
  - by apply run_calls_store_inv.
  - intros Hnn. by apply run_calls_invariants.
Qed.

(** ** config.py *)

Lemma startswith_split s p :
  startswith s p = true →
  s = String.append p (string_drop (String.length p) s).
Proof.
  unfold startswith. revert s. induction p as [|c p IH]; intros s; [done|].
  destruct s as [|d s]; simpl; [done|].
  destruct (Ascii.ascii_dec c d) as [->|]; [|done].
  intros Hp.
  change (String d s
          = String d (String.append p (string_drop (String.length p) s))).
  f_equal. by apply IH.
Qed.

Lemma prefix_empty s : String.prefix "" s = true.
Proof. by destruct s. Qed.

Lemma startswith_append p rest : startswith (String.append p rest) p = true.
Proof.
  unfold startswith. induction p as [|c p IH]; [apply prefix_empty|].
  change (String.append (String c p) rest)
    with (String c (String.append p rest)).
  simpl. by destruct (Ascii.ascii_dec c c).
Qed.

Lemma string_drop_append p rest :
  string_drop (String.length p) (String.append p rest) = rest.
Proof. induction p as [|c p IH]; [done|exact IH]. Qed.

Lemma replace_first_head s old new :
  startswith s old = true →
  replace_first s old new
  = String.append new (string_drop (String.length old) s).
Proof.
  unfold startswith. intros Hp. destruct s as [|c s].
  - by destruct old.
  - cbn [replace_first]. by rewrite Hp.
Qed.

Lemma async_database_url_scheme scheme rest e p o r :
  scheme = "postgresql://" ∨ scheme = "postgres://" →
  async_database_url (Settings.mk (String.append scheme rest) e p o r)
  = String.append "postgresql+asyncpg://" rest.
Proof.
  intros Hscheme. unfold async_database_url.
  cbn [Settings.database_url]. cbv zeta.
  destruct Hscheme as [-> | ->].
  - rewrite startswith_append.
    rewrite replace_first_head by apply startswith_append.
    by rewrite string_drop_append.
  - assert (H1 : startswith (String.append "postgres://" rest) "postgresql://"
                 = false) by (vm_compute; reflexivity).
    rewrite H1, startswith_append.
    rewrite replace_first_head by apply startswith_append.
    by rewrite string_drop_append.
Qed.

Lemma async_database_url_fixed rest e p o r :
  async_database_url
    (Settings.mk (String.append "postgresql+asyncpg://" rest) e p o r)
  = String.append "postgresql+asyncpg://" rest.
Proof.
  unfold async_database_url.
  cbn [Settings.database_url]. cbv zeta.
  assert (H1 : startswith (String.append "postgresql+asyncpg://" rest)
                          "postgresql://" = false)
    by (vm_compute; reflexivity).
  assert (H2 : startswith (String.append "postgresql+asyncpg://" rest)
                          "postgres://" = false)
    by (vm_compute; reflexivity).
  by rewrite H1, H2.
Qed.

(** X17. [async_database_url] rewrites the scheme of a [postgresql://] or
    [postgres://] URL to [postgresql+asyncpg://] and keeps what follows it
    character for character, also where that contains the scheme again;
    any other URL is returned as it is, and a URL it has produced is
    returned unchanged. *)
Theorem async_database_url_rewrites_scheme :
  ∀ (self : Settings.t) (rest : string),
    async_database_url
      (with_database_url (String.append "postgresql://" rest) self)
    = String.append "postgresql+asyncpg://" rest
    ∧ async_database_url
        (with_database_url (String.append "postgres://" rest) self)
      = String.append "postgresql+asyncpg://" rest
    ∧ (startswith (Settings.database_url self) "postgresql://" = false →
       startswith (Settings.database_url self) "postgres://" = false →
       async_database_url self = Settings.database_url self)
    ∧ async_database_url (with_database_url (async_database_url self) self)
      = async_database_url self.
Proof.
  intros self rest. split_and!.
  - apply async_database_url_scheme. by left.
  - apply async_database_url_scheme. by right.
  - unfold async_database_url. cbn zeta. by intros -> ->.
  - destruct self as [url e p o r]. unfold with_database_url.
    cbn [Settings.database_echo Settings.database_pool_size
         Settings.database_max_overflow Settings.repository_type].
    destruct (startswith url "postgresql://") eqn:H1;
      [|destruct (startswith url "postgres://") eqn:H2].
    + apply startswith_split in H1.
      remember (string_drop (String.length "postgresql://") url) as rest'
        eqn:Hrest.
      clear Hrest. subst url.
      rewrite (async_database_url_scheme "postgresql://") by (by left).
      apply async_database_url_fixed.
    + apply startswith_split in H2.
      remember (string_drop (String.length "postgres://") url) as rest'
        eqn:Hrest.
      clear Hrest H1. subst url.
      rewrite (async_database_url_scheme "postgres://") by (by right).
      apply async_database_url_fixed.
    + unfold async_database_url.
      cbn [Settings.database_url]. cbv zeta. by rewrite H1, H2, H1, H2.
Qed.

(** X18. [is_postgres] holds for every URL that begins with [postgresql],
    whatever the repository type, and so for every URL
    [async_database_url] has rewritten. A [postgres://] URL does not count
    by itself: with the repository type [memory] the settings are not
    postgres ones, although [async_database_url] rewrites the URL and the
    rewritten URL would count. *)
Theorem is_postgres_by_type_or_scheme :
  ∀ (self : Settings.t) (rest : string),
    (Settings.repository_type self = repository_postgres →
     is_postgres self = true)
    ∧ (startswith (Settings.database_url self) "postgresql" = true →
       is_postgres self = true)
    ∧ (Settings.repository_type self = repository_memory →
       startswith (Settings.database_url self) "postgresql" = false →
       is_postgres self = false)
    ∧ (Settings.repository_type self = repository_memory →
       let short := with_database_url (String.append "postgres://" rest) self in
       is_postgres short = false
       ∧ is_postgres (with_database_url (async_database_url short) self)
         = true).
Proof.
  intros self rest. split_and!.
  - unfold is_postgres. by intros ->.
  - unfold is_postgres. intros ->.
    by destruct (Settings.repository_type self).
  - unfold is_postgres. by intros -> ->.
  - intros Hm. cbn zeta. unfold with_database_url. split.
    + unfold is_postgres.
      cbn [Settings.repository_type Settings.database_url]. rewrite Hm.
      vm_compute. reflexivity.
    + rewrite (async_database_url_scheme "postgres://") by (by right).
      unfold is_postgres.
      cbn [Settings.repository_type Settings.database_url]. rewrite Hm.
      vm_compute. reflexivity.
Qed.

(** ** The further properties on concrete states *)

Lemma registry_inv_singleton sid (l : list WebSocket) :
  l ≠ [] → registry_inv {[sid := l]}.
Proof. intros Hl k l' [_ <-]%lookup_singleton_Some. done. Qed.

Lemma store_inv_singleton (s : Session.t) :
  store_inv {[Session.id s := s]}.
Proof. intros k s' [<- <-]%lookup_singleton_Some. done. Qed.

Ltac by_computation := refine (bool_decide_unpack _ _); vm_compute; exact I.

(** X2 with socket 1 registered: socket 2 comes and goes. *)
Lemma connect_then_disconnect_sample :
  connect 2%nat "session" {["session" := [1%nat]]} (mkTransport [] ∅)
  ≫= (λ r, disconnect 2%nat "session" r.1)
  = Some {["session" := [1%nat]]}.
Proof.
  apply connect_then_disconnect_restores.
  - by apply registry_inv_singleton.
  - by_computation.
  - by_computation.
Defined.

(** X3 with socket 1 registered twice and socket 2 once. *)
Lemma disconnect_removes_one_registration_sample :
  ∃ conns',
    disconnect 1%nat "session" {["session" := [1; 2; 1]%nat]} = Some conns'
    ∧ get_participant_count "session" conns' = 2%nat
    ∧ occurrences 1%nat (subscribers "session" conns') = 1%nat.
Proof.
  destruct (disconnect_removes_one_registration
              1%nat "session" {["session" := [1; 2; 1]%nat]})
    as (conns' & Hd & Hcount & Hocc & _).
  { by_computation. }
  exists conns'. split; [exact Hd|].
  assert (H3 : get_participant_count "session" {["session" := [1; 2; 1]%nat]}
               = 3%nat) by (vm_compute; reflexivity).
  assert (H2 : occurrences 1%nat
                 (subscribers "session" {["session" := [1; 2; 1]%nat]})
               = 2%nat) by (vm_compute; reflexivity).
  rewrite H3 in Hcount. rewrite H2 in Hocc. split; congruence.
Defined.

(** X8 at [sample_session]: of three edits, the second carries a
    language. *)
Lemma update_code_last_write_wins_sample :
  ∃ s',
    run_updates "session"
      [edit_a; UpdateCodeRequest.mk "c" (Some javascript); edit_b]
      {["session" := sample_session]}
    !! "session" = Some s'
    ∧ Session.code s' = "b"
    ∧ Session.language s' = javascript.
Proof.
  destruct (update_code_last_write_wins
              "session"
              [edit_a; UpdateCodeRequest.mk "c" (Some javascript); edit_b]
              {["session" := sample_session]} sample_session)
    as (s' & Hrun & Hcode & Hlang & _).
  { apply lookup_singleton_eq. }
  { reflexivity. }
  exists s'. split; [exact Hrun|]. split; [exact Hcode|exact Hlang].
Defined.

(** X9 at [sample_session]. *)
Lemma update_code_idempotent_sample :
  SessionService.update_code "session" edit_a
    (SessionService.update_code "session" edit_a
       {["session" := sample_session]}).2
  = SessionService.update_code "session" edit_a {["session" := sample_session]}.
Proof.
  apply (update_code_idempotent "session" edit_a _ sample_session).
  - apply lookup_singleton_eq.
  - reflexivity.
Defined.

(** X11 at [sample_app]. *)
Lemma put_code_then_get_session_sample :
  ∃ s' a',
    sessions.update_code "session" edit_a sample_app = (inr s', a')
    ∧ sessions_get_session "session" a' = (inr s', a').
Proof.
  destruct (put_code_then_get_session sample_app "session" sample_session
                                      edit_a)
    as (s' & a' & Hput & Hget & _).
  { apply lookup_singleton_eq. }
  { reflexivity. }
  exists s', a'. split; [exact Hput|exact Hget].
Defined.

(** X13 at [sample_app]: socket 2 enters and leaves. *)
Lemma endpoint_enter_then_leave_sample :
  ∃ a',
    websocket_endpoint_open 2%nat "session" sample_app
    ≫= websocket_endpoint_close 2%nat "session"
    = Some a'
    ∧ connection_manager a' = connection_manager sample_app
    ∧ memory_repository a' = memory_repository sample_app.
Proof.
  destruct (endpoint_enter_then_leave 2%nat "session" sample_session
                                      sample_app)
    as (a' & Hrun & Hreg & Hmem & _).
  { reflexivity. }
  { by apply registry_inv_singleton. }
  { apply lookup_singleton_eq. }
  { simpl. lia. }
  { by_computation. }
  exists a'. split; [exact Hrun|]. split; [exact Hreg|exact Hmem].
Defined.


(** X15 on a run in which a socket asks for a session that was never
    created. *)
Lemma unknown_sessions_have_no_sockets_sample :
  get_participant_count "ghost" (connection_manager empty_app) = 0%nat.
Proof.
  exact (proj2 (unknown_sessions_have_no_sockets
                  [ev_ws_open 1%nat "ghost"] empty_app "ghost"
                  eq_refl eq_refl)).
Defined.

(** X16 on a run from [sample_app]: an edit, then socket 2 enters. *)
Lemma sessions_persist_sample :
  ∃ a' s',
    run_events [ev_put_code "session" edit_a; ev_ws_open 2%nat "session"]
               sample_app
    = Some a'
    ∧ memory_repository a' !! "session" = Some s'
    ∧ Session.createdAt s' = 0.
Proof.
  destruct (run_events [ev_put_code "session" edit_a;
                        ev_ws_open 2%nat "session"] sample_app)
    as [a'|] eqn:Hrun; [|vm_compute in Hrun; discriminate].
  destruct (sessions_persist
              [ev_put_code "session" edit_a; ev_ws_open 2%nat "session"]
              sample_app a' "session" sample_session)
    as ((s' & Hs' & _ & Hat) & _).
  { apply (store_inv_singleton sample_session). }
  { exact Hrun. }
  { apply lookup_singleton_eq. }
  exists a', s'. split; [reflexivity|]. split; [exact Hs'|exact Hat].
Defined.

(** X20 with three sockets registered and the transport of socket 2 lost:
    sockets 1 and 3 receive the message and stay, socket 2 is pruned. *)
Lemma broadcast_contains_send_failures_sample :
  ∃ conns' t',
    broadcast "session" sample_update {["session" := [1; 2; 3]%nat]}
              (mkTransport [] {[2%nat]})
    = Some (conns', t')
    ∧ delivered t' = [(1%nat, sample_update); (3%nat, sample_update)]
    ∧ subscribers "session" conns' = [1; 3]%nat.
Proof.
  destruct (broadcast_contains_send_failures
              "session" sample_update {["session" := [1; 2; 3]%nat]}
              (mkTransport [] {[2%nat]}))
    as (conns' & t' & Hrun & Hdel & _ & _ & Hsub & _).
  exists conns', t'. split; [exact Hrun|].
  rewrite Hdel, Hsub. split; vm_compute; reflexivity.
Defined.


(** X19 at [sample_live]: the call sends to socket 2 and prunes
    socket 1, as [broadcast] on the registry does. *)
Lemma uninterrupted_broadcast_sample :
  ∃ h',
    (let '(p, h1) := live_broadcast "session" sample_update sample_live in
     run_to_end 2 p h1) = Some h'
    ∧ broadcast "session" sample_update (registry_of sample_live)
                (wires sample_live)
      = Some (registry_of h', wires h')
    ∧ subscribers "session" (registry_of h') = [2%nat].
Proof.
  destruct (uninterrupted_broadcast_is_broadcast
              "session" sample_update sample_live 2)
    as (h' & Hrun & _ & Hb).
  { split_and!; unfold sample_live; simpl.
    - intros k a [<- <-]%lookup_singleton_Some. lia.
    - by intros k k' a [<- _]%lookup_singleton_Some
                       [<- _]%lookup_singleton_Some.
    - intros k a ws [<- <-]%lookup_singleton_Some. unfold contents. simpl.
      intros [->|[->|[]%elem_of_nil]%elem_of_cons]%elem_of_cons;
        refine (bool_decide_unpack _ _); vm_compute; exact I. }
  { vm_compute. lia. }
  exists h'. split; [exact Hrun|]. split; [exact Hb|].
  vm_compute in Hrun. injection Hrun as <-. by vm_compute.
Defined.

(** X22 on the run in which socket 1 departs during a broadcast. *)
Lemma interleaving_keeps_registry_sample :
  ∃ s,
    run_steps departure_during_broadcast empty_server = Some s
    ∧ registry_inv (registry_of (manager s))
    ∧ NoDup (subscribers "session" (registry_of (manager s))).
Proof.
  eexists. split; [by vm_compute|].
  match goal with
  | |- registry_inv (registry_of (manager ?s)) ∧ _ =>
      destruct (interleaving_keeps_registry departure_during_broadcast s)
        as (Hinv & Hnd & _); [by vm_compute|]
  end.
  split; [exact Hinv|apply Hnd].
Defined.
